(** * The bank-account commands of go-command, embedded in Rocq

    The Go program keeps its accounts and its command objects behind
    pointers, so the embedding threads a memory with two stores through
    every method: one of [BankAccount] structs and one of command objects.
    Balances and amounts are Go [float64] values, embedded as Rocq's
    primitive binary64 floats, which compute the same IEEE 754 results. *)

From Stdlib Require Import ZArith Floats.
From stdpp Require Import base option list gmap.

Open Scope Z_scope.

(* ------------------------------------------------------------------ *)
(** ** Memory *)

(** A pointer is an address; an address that holds nothing stands for a
    pointer that cannot be dereferenced ([nil]). *)
Definition ptr := nat.

(** [var overdraftLimit = -500.0], a package variable that no statement of
    the program assigns. *)
Definition overdraftLimit : float := (-500)%float.

(** [type BankAccount struct { balance float64 }] *)
Record BankAccount := mkBankAccount { balance : float }.

(** [type Action int], with [Deposit Action = iota] and [Withdraw]. *)
Definition Action := Z.
Definition Deposit : Action := 0.
Definition Withdraw : Action := 1.

(** The three dynamic types behind the [Command] interface.  A
    [MoneyTransferCommand] embeds a [CompositeBankAccountCommand], whose
    only field is the slice [commands]. *)
Inductive Command :=
| BankAccountCommand (account : ptr) (action : Action) (amount : float)
                     (succeeded : bool)
| CompositeBankAccountCommand (commands : list ptr)
| MoneyTransferCommand (commands : list ptr) (from to : ptr) (amount : float).

Record Memory := mkMemory {
  accounts : gmap ptr BankAccount;
  objects : gmap ptr Command
}.

(** The three ways a call can end: it returns, it panics on a nil
    dereference, or the recursion budget of the model is used up. *)
Inductive outcome (A : Type) :=
| Ret (a : A) (m : Memory)
| Panic
| OutOfFuel.
Arguments Ret {A} a m.
Arguments Panic {A}.
Arguments OutOfFuel {A}.

Definition M (A : Type) := Memory -> outcome A.

Definition ret {A} (a : A) : M A := fun m => Ret a m.

Definition bind {A B} (c : M A) (k : A -> M B) : M B := fun m =>
  match c m with
  | Ret a m' => k a m'
  | Panic => Panic
  | OutOfFuel => OutOfFuel
  end.

Declare Scope go_scope.
Delimit Scope go_scope with go.
Notation "x <- c ;; k" := (bind c (fun x => k))
  (at level 100, c at next level, right associativity) : go_scope.
Notation "c ;; k" := (bind c (fun _ => k))
  (at level 100, right associativity) : go_scope.
Open Scope go_scope.

Definition panic {A} : M A := fun _ => Panic.

(** Reading and writing [account.balance]. *)
Definition load_balance (account : ptr) : M float := fun m =>
  match accounts m !! account with
  | Some a => Ret (balance a) m
  | None => Panic
  end.

Definition with_balance (account : ptr) (b : float) (m : Memory) : Memory :=
  mkMemory (<[account := mkBankAccount b]> (accounts m)) (objects m).

Definition store_balance (account : ptr) (b : float) : M unit := fun m =>
  match accounts m !! account with
  | Some _ => Ret tt (with_balance account b m)
  | None => Panic
  end.

(* ------------------------------------------------------------------ *)
(** ** BankAccount *)

(** [func (account *BankAccount) Withdraw(amount float64) bool] *)
Definition BankAccount_Withdraw (account : ptr) (amount : float) : M bool :=
  b <- load_balance account ;;
  if (b - amount <? overdraftLimit)%float then ret false
  else
    b <- load_balance account ;;
    store_balance account (b - amount)%float ;;
    ret true.

(** [func (account *BankAccount) Deposit(amount float64)] *)
Definition BankAccount_Deposit (account : ptr) (amount : float) : M unit :=
  b <- load_balance account ;;
  store_balance account (b + amount)%float.

(* ------------------------------------------------------------------ *)
(** ** Command objects in memory *)

Definition with_object (c : ptr) (o : Command) (m : Memory) : Memory :=
  mkMemory (accounts m) (<[c := o]> (objects m)).

Definition load_object (c : ptr) : M Command := fun m =>
  match objects m !! c with
  | Some o => Ret o m
  | None => Panic
  end.

(** [c.succeeded = value] on a [*BankAccountCommand]. *)
Definition store_succeeded (c : ptr) (value : bool) : M unit := fun m =>
  match objects m !! c with
  | Some (BankAccountCommand account action amount _) =>
      Ret tt (with_object c (BankAccountCommand account action amount value) m)
  | _ => Panic
  end.

(** [c.commands], a field of the composite and, by embedding, of the
    transfer. *)
Definition load_commands (c : ptr) : M (list ptr) :=
  o <- load_object c ;;
  match o with
  | CompositeBankAccountCommand commands => ret commands
  | MoneyTransferCommand commands _ _ _ => ret commands
  | BankAccountCommand _ _ _ _ => panic
  end.

(** [&T{...}]: a new object at an address not in use. *)
Definition new_object (o : Command) : M ptr := fun m =>
  let p := fresh (dom (objects m)) in
  Ret p (with_object p o m).

(** [&BankAccount{balance: b}] *)
Definition new_account (b : float) : M ptr := fun m =>
  let p := fresh (dom (accounts m)) in
  Ret p (with_balance p b m).

(* ------------------------------------------------------------------ *)
(** ** BankAccountCommand *)

(** [func (c *BankAccountCommand) Call()] *)
Definition BankAccountCommand_Call (c : ptr) : M unit :=
  o <- load_object c ;;
  match o with
  | BankAccountCommand account action amount _ =>
      match action with
      | 0 => BankAccount_Deposit account amount ;; store_succeeded c true
      | 1 => ok <- BankAccount_Withdraw account amount ;; store_succeeded c ok
      | _ => ret tt
      end
  | _ => panic
  end.

(** [func (c *BankAccountCommand) Undo()] *)
Definition BankAccountCommand_Undo (c : ptr) : M unit :=
  o <- load_object c ;;
  match o with
  | BankAccountCommand account action amount succeeded =>
      if negb succeeded then ret tt
      else
        match action with
        | 0 => _ <- BankAccount_Withdraw account amount ;; ret tt
        | 1 => BankAccount_Deposit account amount
        | _ => ret tt
        end
  | _ => panic
  end.

(** [func (c *BankAccountCommand) Succeeded() bool] *)
Definition BankAccountCommand_Succeeded (c : ptr) : M bool :=
  o <- load_object c ;;
  match o with
  | BankAccountCommand _ _ _ succeeded => ret succeeded
  | _ => panic
  end.

(** [func (c *BankAccountCommand) SetSucceeded(value bool)] *)
Definition BankAccountCommand_SetSucceeded (c : ptr) (value : bool) : M unit :=
  store_succeeded c value.

(* ------------------------------------------------------------------ *)
(** ** CompositeBankAccountCommand and MoneyTransferCommand

    The members of a composite are [Command] interface values, so the
    methods below take the interface's methods as arguments; the
    dispatch further down ties them together. *)

Section Composite.
Variable Call : ptr -> M unit.
Variable Undo : ptr -> M unit.
Variable Succeeded : ptr -> M bool.
Variable SetSucceeded : ptr -> bool -> M unit.

(** [for _, cmd := range commands { body(cmd) }] *)
Fixpoint range (commands : list ptr) (body : ptr -> M unit) : M unit :=
  match commands with
  | [] => ret tt
  | cmd :: rest => body cmd ;; range rest body
  end.

(** [func (c *CompositeBankAccountCommand) Call()] *)
Definition CompositeBankAccountCommand_Call (c : ptr) : M unit :=
  commands <- load_commands c ;;
  range commands Call.

(** [for ; i >= 0; i-- { commands[i].Undo() }], entered with
    [i = n - 1]. *)
Fixpoint undo_down (n : nat) (commands : list ptr) : M unit :=
  match n with
  | O => ret tt
  | S i =>
      match commands !! i with
      | Some cmd => Undo cmd ;; undo_down i commands
      | None => panic
      end
  end.

(** [func (c *CompositeBankAccountCommand) Undo()] *)
Definition CompositeBankAccountCommand_Undo (c : ptr) : M unit :=
  commands <- load_commands c ;;
  undo_down (length commands) commands.

(** The loop of [Succeeded], which returns [false] at the first member
    that has not succeeded. *)
Fixpoint all_succeeded (commands : list ptr) : M bool :=
  match commands with
  | [] => ret true
  | cmd :: rest =>
      ok <- Succeeded cmd ;;
      if negb ok then ret false else all_succeeded rest
  end.

(** [func (c *CompositeBankAccountCommand) Succeeded() bool] *)
Definition CompositeBankAccountCommand_Succeeded (c : ptr) : M bool :=
  commands <- load_commands c ;;
  all_succeeded commands.

(** [func (c *CompositeBankAccountCommand) SetSucceeded(value bool)] *)
Definition CompositeBankAccountCommand_SetSucceeded (c : ptr) (value : bool)
  : M unit :=
  commands <- load_commands c ;;
  range commands (fun cmd => SetSucceeded cmd value).

(** The loop of [MoneyTransferCommand.Call], with its local variable
    [succeded]. *)
Fixpoint transfer_loop (succeded : bool) (commands : list ptr) : M unit :=
  match commands with
  | [] => ret tt
  | cmd :: rest =>
      if succeded then
        Call cmd ;;
        ok <- Succeeded cmd ;;
        transfer_loop ok rest
      else
        SetSucceeded cmd false ;;
        transfer_loop succeded rest
  end.

(** [func (c *MoneyTransferCommand) Call()] *)
Definition MoneyTransferCommand_Call (c : ptr) : M unit :=
  commands <- load_commands c ;;
  transfer_loop true commands.
End Composite.

(* ------------------------------------------------------------------ *)
(** ** The Command interface

    A call through the interface selects the method of the object's
    dynamic type.  Composites may contain composites, and nothing stops a
    slice from holding its own owner, so each call through the interface
    spends one unit of [fuel]. *)

Definition out_of_fuel {A} : M A := fun _ => OutOfFuel.

Fixpoint Command_Succeeded (fuel : nat) (cmd : ptr) : M bool :=
  match fuel with
  | O => out_of_fuel
  | S fuel =>
      o <- load_object cmd ;;
      match o with
      | BankAccountCommand _ _ _ _ => BankAccountCommand_Succeeded cmd
      | CompositeBankAccountCommand _ | MoneyTransferCommand _ _ _ _ =>
          CompositeBankAccountCommand_Succeeded (Command_Succeeded fuel) cmd
      end
  end.

Fixpoint Command_SetSucceeded (fuel : nat) (cmd : ptr) (value : bool) : M unit :=
  match fuel with
  | O => out_of_fuel
  | S fuel =>
      o <- load_object cmd ;;
      match o with
      | BankAccountCommand _ _ _ _ => BankAccountCommand_SetSucceeded cmd value
      | CompositeBankAccountCommand _ | MoneyTransferCommand _ _ _ _ =>
          CompositeBankAccountCommand_SetSucceeded (Command_SetSucceeded fuel) cmd value
      end
  end.

Fixpoint Command_Undo (fuel : nat) (cmd : ptr) : M unit :=
  match fuel with
  | O => out_of_fuel
  | S fuel =>
      o <- load_object cmd ;;
      match o with
      | BankAccountCommand _ _ _ _ => BankAccountCommand_Undo cmd
      | CompositeBankAccountCommand _ | MoneyTransferCommand _ _ _ _ =>
          CompositeBankAccountCommand_Undo (Command_Undo fuel) cmd
      end
  end.

Fixpoint Command_Call (fuel : nat) (cmd : ptr) : M unit :=
  match fuel with
  | O => out_of_fuel
  | S fuel =>
      o <- load_object cmd ;;
      match o with
      | BankAccountCommand _ _ _ _ => BankAccountCommand_Call cmd
      | CompositeBankAccountCommand _ =>
          CompositeBankAccountCommand_Call (Command_Call fuel) cmd
      | MoneyTransferCommand _ _ _ _ =>
          MoneyTransferCommand_Call (Command_Call fuel) (Command_Succeeded fuel)
            (Command_SetSucceeded fuel) cmd
      end
  end.

(** [func NewMoneyTransferCommand(from, to *BankAccount, amount float64)
    *MoneyTransferCommand] *)
Definition NewMoneyTransferCommand (from to : ptr) (amount : float) : M ptr :=
  withdrawCmd <- new_object (BankAccountCommand from Withdraw amount false) ;;
  depositCmd <- new_object (BankAccountCommand to Deposit amount false) ;;
  let commands := [withdrawCmd; depositCmd] in
  new_object (MoneyTransferCommand commands from to amount).

(* ------------------------------------------------------------------ *)
(** ** The first version of the program

    [main.go] keeps the program as it was before commands could be
    undone: [Withdraw] returns nothing, and a command has no [succeeded]
    field and no method but [Call], which never writes to the command. *)

Module V1.

(** [func (account *BankAccount) Withdraw(amount float64)] *)
Definition BankAccount_Withdraw (account : ptr) (amount : float) : M unit :=
  b <- load_balance account ;;
  if (b - amount <? overdraftLimit)%float then ret tt
  else
    b <- load_balance account ;;
    store_balance account (b - amount)%float.

(** [func (account *BankAccount) Deposit(amount float64)] *)
Definition BankAccount_Deposit (account : ptr) (amount : float) : M unit :=
  b <- load_balance account ;;
  store_balance account (b + amount)%float.

(** [type BankAccountCommand struct { account; action; amount }] *)
Record BankAccountCommand := mkBankAccountCommand {
  account : ptr;
  action : Action;
  amount : float
}.

(** [func (c *BankAccountCommand) Call()] *)
Definition BankAccountCommand_Call (c : BankAccountCommand) : M unit :=
  match action c with
  | 0 => BankAccount_Deposit (account c) (amount c)
  | 1 => BankAccount_Withdraw (account c) (amount c)
  | _ => ret tt
  end.

End V1.

(* ------------------------------------------------------------------ *)
(** ** main

    The two halves of [func main()], each returning what it prints: the
    balances, and for the transfers what [Succeeded] answered. *)

Definition main_simple : M (list float) :=
  account <- new_account 1000 ;;
  cmd <- new_object (BankAccountCommand account Withdraw 200 false) ;;
  BankAccountCommand_Call cmd ;;
  b1 <- load_balance account ;;
  cmd2 <- new_object (BankAccountCommand account Deposit 500 false) ;;
  BankAccountCommand_Call cmd2 ;;
  b2 <- load_balance account ;;
  BankAccountCommand_Undo cmd ;;
  b3 <- load_balance account ;;
  BankAccountCommand_Undo cmd2 ;;
  b4 <- load_balance account ;;
  ret [b1; b2; b3; b4].

Definition main_transfer : M (list float * list bool) :=
  accountA <- new_account 1000 ;;
  accountB <- new_account 500 ;;
  transferCmd <- NewMoneyTransferCommand accountA accountB 300 ;;
  Command_Call 2 transferCmd ;;
  a1 <- load_balance accountA ;;
  b1 <- load_balance accountB ;;
  s1 <- Command_Succeeded 2 transferCmd ;;
  Command_Undo 2 transferCmd ;;
  a2 <- load_balance accountA ;;
  b2 <- load_balance accountB ;;
  largeTransferCmd <- NewMoneyTransferCommand accountA accountB 2000 ;;
  Command_Call 2 largeTransferCmd ;;
  a3 <- load_balance accountA ;;
  b3 <- load_balance accountB ;;
  s3 <- Command_Succeeded 2 largeTransferCmd ;;
  Command_Undo 2 largeTransferCmd ;;
  a4 <- load_balance accountA ;;
  b4 <- load_balance accountB ;;
  ret ([a1; b1; a2; b2; a3; b3; a4; b4], [s1; s3]).

(** What a computation returns, when it does. *)
Definition result {A} (o : outcome A) : option A :=
  match o with
  | Ret a _ => Some a
  | _ => None
  end.

(* ------------------------------------------------------------------ *)
(** ** Vocabulary of the properties *)

(** [extends c c']: wherever [c] ends within its budget, by a return or
    by a panic, [c'] ends the same way. *)
Definition extends {A} (c c' : M A) : Prop :=
  forall m, c m <> OutOfFuel -> c' m = c m.

(** A computation that returns leaves the memory as it found it. *)
Definition read_only {A} (c : M A) : Prop :=
  forall m a m', c m = Ret a m' -> m' = m.

(** A command object with its flag forgotten. *)
Definition forget_flag (o : Command) : Command :=
  match o with
  | BankAccountCommand account action amount _ =>
      BankAccountCommand account action amount false
  | _ => o
  end.

(** [flags_only m m']: from [m] to [m'] no balance has changed, no command
    object has appeared or gone, and no field of a command object other
    than [succeeded] has changed. *)
Definition flags_only (m m' : Memory) : Prop :=
  accounts m' = accounts m /\
  forget_flag <$> objects m' = forget_flag <$> objects m.

(** [called_with_success n pre m m1]: calling the members [pre] in order
    takes [m] to [m1], and each of them reports success right after its
    call. *)
Inductive called_with_success (n : nat) : list ptr -> Memory -> Memory -> Prop :=
| called_nil (m : Memory) : called_with_success n [] m m
| called_cons (cmd : ptr) (rest : list ptr) (m m1 m2 : Memory) :
    Command_Call n cmd m = Ret tt m1 ->
    Command_Succeeded n cmd m1 = Ret true m1 ->
    called_with_success n rest m1 m2 ->
    called_with_success n (cmd :: rest) m m2.

(** [is_transfer m t w d from to amount sw sd]: in [m], [t] is a transfer
    of [amount] from [from] to [to] whose slice holds the withdrawal [w]
    and the deposit [d], with flags [sw] and [sd].  This is what
    [NewMoneyTransferCommand] builds, and no method changes anything of it
    but the two flags. *)
Definition is_transfer (m : Memory) (t w d from to : ptr) (amount : float)
    (sw sd : bool) : Prop :=
  objects m !! t = Some (MoneyTransferCommand [w; d] from to amount) /\
  objects m !! w = Some (BankAccountCommand from Withdraw amount sw) /\
  objects m !! d = Some (BankAccountCommand to Deposit amount sd).

(** [preserves P c]: whenever [c] returns, the memory it leaves is related
    by [P] to the memory it started from. *)
Definition preserves {A} (P : Memory -> Memory -> Prop) (c : M A) : Prop :=
  forall m a m', c m = Ret a m' -> P m m'.

(** [keeps_shape m m']: from [m] to [m'] no account and no command object
    has appeared or gone, and no field of a command object other than
    [succeeded] has changed; balances and flags may have. *)
Definition keeps_shape (m m' : Memory) : Prop :=
  dom (accounts m') = dom (accounts m) /\
  forget_flag <$> objects m' = forget_flag <$> objects m.

(** [raised m m']: from [m] to [m'] every command object is as it was,
    or is a leaf command whose flag is now true. *)
Definition raised (m m' : Memory) : Prop :=
  forall p,
    objects m' !! p = objects m !! p \/
    exists account action amount s,
      objects m !! p = Some (BankAccountCommand account action amount s) /\
      objects m' !! p = Some (BankAccountCommand account action amount true).

(* ------------------------------------------------------------------ *)
(** ** Memories used in the examples *)

(** A memory with a single account, at address 0, and no command. *)
Definition one_account (B : float) : Memory :=
  mkMemory {[ 0%nat := mkBankAccount B ]} ∅.

(** A memory with one account, at address 0, and one leaf command on it,
    at address 0 of the command store, not yet run. *)
Definition one_leaf (B : float) (action : Action) (amount : float) : Memory :=
  mkMemory {[ 0%nat := mkBankAccount B ]}
           {[ 0%nat := BankAccountCommand 0%nat action amount false ]}.

(** A memory with two accounts, at addresses 0 and 1, and no command. *)
Definition two_accounts (F T : float) : Memory :=
  mkMemory {[ 0%nat := mkBankAccount F; 1%nat := mkBankAccount T ]} ∅.

(** A memory with no account and a composite, at address 2, over two leaf
    commands whose flags are [s0] and [s1]. *)
Definition two_flags (s0 s1 : bool) : Memory :=
  mkMemory ∅
    {[ 0%nat := BankAccountCommand 0%nat Withdraw 200 s0;
       1%nat := BankAccountCommand 0%nat Deposit 500 s1;
       2%nat := CompositeBankAccountCommand [0%nat; 1%nat] ]}.

(** The memory [transfer_memory], with a plain composite in the place of
    the transfer. *)
Definition composite_memory (F T amount : float) (s0 s1 : bool) : Memory :=
  mkMemory
    {[ 0%nat := mkBankAccount F; 1%nat := mkBankAccount T ]}
    {[ 0%nat := BankAccountCommand 0%nat Withdraw amount s0;
       1%nat := BankAccountCommand 1%nat Deposit amount s1;
       2%nat := CompositeBankAccountCommand [0%nat; 1%nat] ]}.

(** A memory with two accounts, at addresses 0 and 1, and a transfer
    command between them, at address 2, over its two leaf commands. *)
Definition transfer_memory (F T amount : float) (s0 s1 : bool) : Memory :=
  mkMemory
    {[ 0%nat := mkBankAccount F; 1%nat := mkBankAccount T ]}
    {[ 0%nat := BankAccountCommand 0%nat Withdraw amount s0;
       1%nat := BankAccountCommand 1%nat Deposit amount s1;
       2%nat := MoneyTransferCommand [0%nat; 1%nat] 0%nat 1%nat amount ]}.

(** Two accounts, and one slice of two leaf commands held both by a
    plain composite, at address 2, and by a transfer, at address 3. *)
Definition shared_slice_memory (F T amount : float) (s0 s1 : bool) : Memory :=
  mkMemory
    {[ 0%nat := mkBankAccount F; 1%nat := mkBankAccount T ]}
    {[ 0%nat := BankAccountCommand 0%nat Withdraw amount s0;
       1%nat := BankAccountCommand 1%nat Deposit amount s1;
       2%nat := CompositeBankAccountCommand [0%nat; 1%nat];
       3%nat := MoneyTransferCommand [0%nat; 1%nat] 0%nat 1%nat amount ]}.

(** One account, and a transfer from it to itself at address 2. *)
Definition self_transfer_memory (F amount : float) (s0 s1 : bool) : Memory :=
  mkMemory
    {[ 0%nat := mkBankAccount F ]}
    {[ 0%nat := BankAccountCommand 0%nat Withdraw amount s0;
       1%nat := BankAccountCommand 0%nat Deposit amount s1;
       2%nat := MoneyTransferCommand [0%nat; 1%nat] 0%nat 0%nat amount ]}.

(** No account, and a composite at address 0 whose only member is
    itself. *)
Definition self_composite_memory : Memory :=
  mkMemory ∅ {[ 0%nat := CompositeBankAccountCommand [0%nat] ]}.

(* ------------------------------------------------------------------ *)
(** * Properties *)

(** ** Order of binary64 values

    Go's [<] and [>=] on [float64] are the IEEE 754 comparisons: both are
    false as soon as one side is NaN. *)

Module Float64.

Lemma SFcompare_antisym (x y : spec_float) :
  SFcompare y x = option_map CompOpp (SFcompare x y).
Proof.
  destruct x as [sx|sx| |sx mx ex], y as [sy|sy| |sy my ey]; simpl;
    try reflexivity;
    try (destruct sx; reflexivity); try (destruct sy; reflexivity);
    try (destruct sx, sy; reflexivity).
  change (Pos.compare_cont Eq my mx) with (my ?= mx)%positive.
  change (Pos.compare_cont Eq mx my) with (mx ?= my)%positive.
  rewrite (Z.compare_antisym ey ex), (Pos.compare_antisym my mx).
  destruct sx, sy; simpl; try reflexivity;
    destruct (ey ?= ex); simpl; try reflexivity;
    destruct (my ?= mx)%positive; reflexivity.
Qed.

Lemma SFcompare_refl (x : spec_float) :
  SFcompare x x = match x with S754_nan => None | _ => Some Eq end.
Proof.
  destruct x as [s|s| |s m e]; simpl; try reflexivity;
    try (destruct s; reflexivity).
  change (Pos.compare_cont Eq m m) with (m ?= m)%positive.
  destruct s; rewrite Z.compare_refl, Pos.compare_refl; reflexivity.
Qed.

Lemma SFcompare_None (x y : spec_float) :
  SFcompare x y = None -> x = S754_nan \/ y = S754_nan.
Proof.
  destruct x as [sx|sx| |sx mx ex], y as [sy|sy| |sy my ey]; simpl; auto;
    discriminate.
Qed.

Lemma is_nan_spec (x : float) : is_nan x = true <-> Prim2SF x = S754_nan.
Proof.
  unfold is_nan. rewrite FloatAxioms.eqb_spec. unfold SFeqb. rewrite SFcompare_refl.
  destruct (Prim2SF x); simpl; split; congruence.
Qed.

(** [x <= y] excludes [y < x]. *)
Lemma leb_ltb_false (x y : float) :
  (x <=? y)%float = true -> (y <? x)%float = false.
Proof.
  rewrite FloatAxioms.leb_spec, FloatAxioms.ltb_spec. unfold SFleb, SFltb.
  rewrite (SFcompare_antisym (Prim2SF x) (Prim2SF y)).
  destruct (SFcompare (Prim2SF x) (Prim2SF y)) as [[]|]; simpl; congruence.
Qed.

(** Away from NaN the order is total. *)
Lemma ltb_false_leb (x y : float) :
  is_nan x = false -> is_nan y = false ->
  (x <? y)%float = false -> (y <=? x)%float = true.
Proof.
  intros Hx Hy. rewrite FloatAxioms.leb_spec, FloatAxioms.ltb_spec. unfold SFleb, SFltb.
  rewrite (SFcompare_antisym (Prim2SF x) (Prim2SF y)).
  destruct (SFcompare (Prim2SF x) (Prim2SF y)) as [[]|] eqn:E; simpl;
    try congruence.
  apply SFcompare_None in E.
  destruct E as [E|E]; apply is_nan_spec in E; congruence.
Qed.

(** Nothing is below or above NaN. *)
Lemma nan_ltb_false (x y : float) : is_nan x = true -> (x <? y)%float = false.
Proof.
  intros Hx. apply is_nan_spec in Hx. rewrite FloatAxioms.ltb_spec. unfold SFltb.
  rewrite Hx. reflexivity.
Qed.

Lemma nan_leb_false (x y : float) : is_nan y = true -> (x <=? y)%float = false.
Proof.
  intros Hy. apply is_nan_spec in Hy. rewrite FloatAxioms.leb_spec. unfold SFleb.
  rewrite Hy. destruct (Prim2SF x); reflexivity.
Qed.

(** [x < overdraftLimit] fails exactly when [x >= overdraftLimit] or [x]
    is NaN. *)
Lemma not_below_limit (x : float) :
  (x <? overdraftLimit)%float = false <->
  (overdraftLimit <=? x)%float = true \/ is_nan x = true.
Proof.
  split.
  - intros H. destruct (is_nan x) eqn:Hx; [right; reflexivity | left].
    apply ltb_false_leb; [assumption | reflexivity | assumption].
  - intros [H | H]; [apply leb_ltb_false | apply nan_ltb_false]; assumption.
Qed.

(** Telling two binary64 values apart by computation. *)
Lemma neq_by_eqb (x y : float) : PrimFloat.Leibniz.eqb x y = false -> x <> y.
Proof.
  intros H E. apply FloatAxioms.Leibniz.eqb_spec in E. congruence.
Qed.

End Float64.

(* ------------------------------------------------------------------ *)
(** ** Accounts *)

Section Accounts.
Variables (m : Memory) (account : ptr) (amount : float).

Lemma load_balance_eq (B : float) :
  accounts m !! account = Some (mkBankAccount B) ->
  load_balance account m = Ret B m.
Proof. intros H. unfold load_balance. rewrite H. reflexivity. Qed.

Lemma store_balance_eq (B b : float) :
  accounts m !! account = Some (mkBankAccount B) ->
  store_balance account b m = Ret tt (with_balance account b m).
Proof. intros H. unfold store_balance. rewrite H. reflexivity. Qed.

(** What [Withdraw] does to an account that holds [B]. *)
Lemma Withdraw_eq (B : float) :
  accounts m !! account = Some (mkBankAccount B) ->
  BankAccount_Withdraw account amount m =
    if (B - amount <? overdraftLimit)%float then Ret false m
    else Ret true (with_balance account (B - amount) m).
Proof.
  intros H. unfold BankAccount_Withdraw, bind.
  rewrite (load_balance_eq B H).
  destruct (B - amount <? overdraftLimit)%float; [reflexivity|].
  rewrite (load_balance_eq B H), (store_balance_eq B _ H). reflexivity.
Qed.

(** What [Deposit] does to an account that holds [B]. *)
Lemma Deposit_eq (B : float) :
  accounts m !! account = Some (mkBankAccount B) ->
  BankAccount_Deposit account amount m =
    Ret tt (with_balance account (B + amount) m).
Proof.
  intros H. unfold BankAccount_Deposit, bind.
  rewrite (load_balance_eq B H), (store_balance_eq B _ H). reflexivity.
Qed.

(** Both methods dereference their receiver. *)
Lemma Withdraw_nil :
  accounts m !! account = None -> BankAccount_Withdraw account amount m = Panic.
Proof.
  intros H. unfold BankAccount_Withdraw, bind, load_balance. rewrite H.
  reflexivity.
Qed.

Lemma Deposit_nil :
  accounts m !! account = None -> BankAccount_Deposit account amount m = Panic.
Proof.
  intros H. unfold BankAccount_Deposit, bind, load_balance. rewrite H.
  reflexivity.
Qed.

(** A call of [Withdraw] that returns has found an account. *)
Lemma Withdraw_returns (ok : bool) (m' : Memory) :
  BankAccount_Withdraw account amount m = Ret ok m' ->
  exists B, accounts m !! account = Some (mkBankAccount B).
Proof.
  intros H. destruct (accounts m !! account) as [[B]|] eqn:E.
  - exists B. reflexivity.
  - rewrite (Withdraw_nil E) in H. discriminate.
Qed.
End Accounts.

Lemma with_balance_lookup (account : ptr) (b : float) (m : Memory) :
  accounts (with_balance account b m) !! account = Some (mkBankAccount b).
Proof. unfold with_balance. simpl. apply lookup_insert_eq. Qed.

Lemma with_balance_lookup_ne (account p : ptr) (b : float) (m : Memory) :
  account <> p ->
  accounts (with_balance account b m) !! p = accounts m !! p.
Proof. intros H. unfold with_balance. simpl. by apply lookup_insert_ne. Qed.

(** Writing back the balance an account already has changes nothing. *)
Lemma with_balance_same (account : ptr) (B : float) (m : Memory) :
  accounts m !! account = Some (mkBankAccount B) ->
  with_balance account B m = m.
Proof.
  intros H. destruct m as [acc obj]. unfold with_balance. simpl in *.
  f_equal. by apply insert_id.
Qed.

(** Of two writes to one account the later one stays. *)
Lemma with_balance_twice (account : ptr) (b b' : float) (m : Memory) :
  with_balance account b' (with_balance account b m) = with_balance account b' m.
Proof. unfold with_balance. simpl. f_equal. apply insert_insert_eq. Qed.

(** Writes to different accounts commute. *)
Lemma with_balance_comm (p q : ptr) (b c : float) (m : Memory) :
  p <> q ->
  with_balance p b (with_balance q c m) = with_balance q c (with_balance p b m).
Proof.
  intros H. unfold with_balance. simpl. f_equal. by apply insert_insert_ne.
Qed.

(** C4, as amended: on an account that holds [B], [Withdraw(A)] returns
    true, leaving [B - A], if and only if [B - A] is not below
    [overdraftLimit], which is the case when [B - A >= overdraftLimit] and
    also when [B - A] is NaN; otherwise it returns false and the balance
    stays [B]. *)
Theorem Withdraw_postcondition (m : Memory) (account : ptr) (B A : float) :
  accounts m !! account = Some (mkBankAccount B) ->
  (BankAccount_Withdraw account A m = Ret true (with_balance account (B - A) m)
   <-> ((overdraftLimit <=? B - A)%float = true \/ is_nan (B - A) = true))
  /\ (~ ((overdraftLimit <=? B - A)%float = true \/ is_nan (B - A) = true) ->
      BankAccount_Withdraw account A m = Ret false m).
Proof.
  intros H. rewrite (Withdraw_eq m account A B H).
  rewrite <- Float64.not_below_limit.
  destruct (B - A <? overdraftLimit)%float; split; try split; intros; congruence.
Qed.

Lemma Withdraw_postcondition_witness :
  BankAccount_Withdraw 0%nat 200 (one_account 1000)
    = Ret true (with_balance 0%nat (1000 - 200) (one_account 1000))
  /\ BankAccount_Withdraw 0%nat 2000 (one_account 700)
    = Ret false (one_account 700).
Proof.
  split.
  - apply (Withdraw_postcondition (one_account 1000) 0%nat 1000 200
             ltac:(reflexivity)).
    left. reflexivity.
  - apply (Withdraw_postcondition (one_account 700) 0%nat 700 2000
             ltac:(reflexivity)).
    intros [H | H]; vm_compute in H; discriminate H.
Defined.

(** C4 as the specification words it fails when [B - A] is NaN: with
    balance 0 and amount NaN, [B - A >= overdraftLimit] is false, and yet
    the call returns true and the balance becomes NaN, where the
    specification has it return false and leave the balance alone. *)
Lemma Withdraw_postcondition_counterexample :
  ~ ((BankAccount_Withdraw 0%nat nan (one_account 0)
        = Ret true (with_balance 0%nat (0 - nan) (one_account 0))
      <-> (overdraftLimit <=? 0 - nan)%float = true)
     /\ ((overdraftLimit <=? 0 - nan)%float <> true ->
         BankAccount_Withdraw 0%nat nan (one_account 0)
           = Ret false (one_account 0))).
Proof.
  intros [_ H].
  rewrite (Withdraw_eq _ _ _ 0) in H by reflexivity.
  assert ((overdraftLimit <=? 0 - nan)%float <> true) as Hcond.
  { vm_compute. discriminate. }
  specialize (H Hcond). vm_compute in H. discriminate H.
Qed.

(** C10, as amended: a withdrawal that returns true leaves a balance that
    is not below [overdraftLimit]: it is at least [overdraftLimit], or it
    is NaN.  Neither method looks at the sign or the size of the amount,
    and a deposit of a negative amount takes a balance below
    [overdraftLimit]. *)
Theorem Withdraw_overdraft_floor :
  (forall (m m' : Memory) (account : ptr) (amount : float),
     BankAccount_Withdraw account amount m = Ret true m' ->
     exists b', accounts m' !! account = Some (mkBankAccount b') /\
       (b' <? overdraftLimit)%float = false /\
       ((overdraftLimit <=? b')%float = true \/ is_nan b' = true))
  /\ (forall (m : Memory) (account : ptr) (B amount : float),
        accounts m !! account = Some (mkBankAccount B) ->
        BankAccount_Deposit account amount m
          = Ret tt (with_balance account (B + amount) m))
  /\ (exists b', BankAccount_Deposit 0%nat (-600) (one_account 0)
                   = Ret tt (one_account b') /\
                 (b' <? overdraftLimit)%float = true).
Proof.
  split; [|split].
  - intros m m' account amount H.
    destruct (Withdraw_returns _ _ _ _ _ H) as [B HB].
    rewrite (Withdraw_eq m account amount B HB) in H.
    destruct (B - amount <? overdraftLimit)%float eqn:E; [discriminate H|].
    injection H as <-. exists (B - amount)%float.
    split; [apply with_balance_lookup|]. split; [exact E|].
    apply Float64.not_below_limit, E.
  - intros m account B amount H. apply Deposit_eq, H.
  - exists (-600)%float. split; reflexivity.
Qed.

Lemma Withdraw_overdraft_floor_witness :
  exists b', accounts (with_balance 0%nat (1000 - 200) (one_account 1000)) !! 0%nat
               = Some (mkBankAccount b') /\
    (b' <? overdraftLimit)%float = false /\
    ((overdraftLimit <=? b')%float = true \/ is_nan b' = true).
Proof.
  apply (proj1 Withdraw_overdraft_floor (one_account 1000) _ 0%nat 200%float).
  reflexivity.
Defined.

(** C10 as the specification words it fails on NaN: withdrawing NaN from
    a balance of 0 returns true and leaves NaN, which is not at least
    [overdraftLimit]. *)
Lemma Withdraw_overdraft_floor_counterexample :
  ~ (forall m' : Memory,
       BankAccount_Withdraw 0%nat nan (one_account 0) = Ret true m' ->
       exists b', accounts m' !! 0%nat = Some (mkBankAccount b') /\
                  (overdraftLimit <=? b')%float = true).
Proof.
  intros H.
  destruct (H (with_balance 0%nat (0 - nan) (one_account 0))) as (b' & Hb & Hle).
  { rewrite (Withdraw_eq _ _ _ 0) by reflexivity. reflexivity. }
  rewrite with_balance_lookup in Hb. injection Hb as <-.
  vm_compute in Hle. discriminate Hle.
Qed.

(* ------------------------------------------------------------------ *)
(** ** Leaf commands *)

Lemma with_object_lookup (c : ptr) (o : Command) (m : Memory) :
  objects (with_object c o m) !! c = Some o.
Proof. unfold with_object. simpl. apply lookup_insert_eq. Qed.

Lemma with_object_lookup_ne (c p : ptr) (o : Command) (m : Memory) :
  c <> p -> objects (with_object c o m) !! p = objects m !! p.
Proof. intros H. unfold with_object. simpl. by apply lookup_insert_ne. Qed.

Lemma load_object_eq (m : Memory) (c : ptr) (o : Command) :
  objects m !! c = Some o -> load_object c m = Ret o m.
Proof. intros H. unfold load_object. rewrite H. reflexivity. Qed.

(** Unfolds one call on an object whose content is known from [H]. *)
Ltac enter H :=
  cbn [Command_Call Command_Undo Command_Succeeded Command_SetSucceeded];
  unfold BankAccountCommand_Call, BankAccountCommand_Undo,
    BankAccountCommand_Succeeded, BankAccountCommand_SetSucceeded,
    CompositeBankAccountCommand_Call, CompositeBankAccountCommand_Undo,
    CompositeBankAccountCommand_Succeeded,
    CompositeBankAccountCommand_SetSucceeded, MoneyTransferCommand_Call,
    load_commands, store_succeeded, bind;
  unfold Deposit, Withdraw in *;
  rewrite ?(load_object_eq _ _ _ H), ?H; cbn [ret negb]; cbv beta iota.

Section Leaf.
Variables (m : Memory) (c account : ptr) (amount : float) (n : nat).

Lemma Succeeded_leaf (action : Action) (s : bool) :
  objects m !! c = Some (BankAccountCommand account action amount s) ->
  Command_Succeeded (S n) c m = Ret s m.
Proof. intros H. enter H. reflexivity. Qed.

Lemma SetSucceeded_leaf (action : Action) (s value : bool) :
  objects m !! c = Some (BankAccountCommand account action amount s) ->
  Command_SetSucceeded (S n) c value m =
    Ret tt (with_object c (BankAccountCommand account action amount value) m).
Proof. intros H. enter H. reflexivity. Qed.

(** [Call] on a deposit: the amount is added and the flag set. *)
Lemma Call_Deposit (s : bool) (B : float) :
  objects m !! c = Some (BankAccountCommand account Deposit amount s) ->
  accounts m !! account = Some (mkBankAccount B) ->
  Command_Call (S n) c m =
    Ret tt (with_object c (BankAccountCommand account Deposit amount true)
              (with_balance account (B + amount) m)).
Proof.
  intros H HB. enter H. rewrite (Deposit_eq m account amount B HB).
  simpl. rewrite H. reflexivity.
Qed.

(** [Call] on a withdrawal: the flag records what [Withdraw] returned. *)
Lemma Call_Withdraw (s : bool) (B : float) :
  objects m !! c = Some (BankAccountCommand account Withdraw amount s) ->
  accounts m !! account = Some (mkBankAccount B) ->
  Command_Call (S n) c m =
    if (B - amount <? overdraftLimit)%float
    then Ret tt (with_object c (BankAccountCommand account Withdraw amount false) m)
    else Ret tt (with_object c (BankAccountCommand account Withdraw amount true)
                   (with_balance account (B - amount) m)).
Proof.
  intros H HB. enter H. rewrite (Withdraw_eq m account amount B HB).
  destruct (B - amount <? overdraftLimit)%float; simpl; rewrite H;
    reflexivity.
Qed.

(** [Undo] returns at once when the flag is false. *)
Lemma Undo_not_succeeded (action : Action) :
  objects m !! c = Some (BankAccountCommand account action amount false) ->
  Command_Undo (S n) c m = Ret tt m.
Proof. intros H. enter H. reflexivity. Qed.

(** [Undo] of a deposit withdraws, and drops what [Withdraw] returns. *)
Lemma Undo_Deposit (B : float) :
  objects m !! c = Some (BankAccountCommand account Deposit amount true) ->
  accounts m !! account = Some (mkBankAccount B) ->
  Command_Undo (S n) c m =
    if (B - amount <? overdraftLimit)%float then Ret tt m
    else Ret tt (with_balance account (B - amount) m).
Proof.
  intros H HB. enter H. rewrite (Withdraw_eq m account amount B HB).
  destruct (B - amount <? overdraftLimit)%float; reflexivity.
Qed.

(** [Undo] of a withdrawal deposits. *)
Lemma Undo_Withdraw (B : float) :
  objects m !! c = Some (BankAccountCommand account Withdraw amount true) ->
  accounts m !! account = Some (mkBankAccount B) ->
  Command_Undo (S n) c m = Ret tt (with_balance account (B + amount) m).
Proof.
  intros H HB. enter H. rewrite (Deposit_eq m account amount B HB).
  reflexivity.
Qed.
End Leaf.

(** C6: [Undo] on a leaf command whose flag is false returns without
    touching the memory, so every account keeps its balance. *)
Theorem Undo_after_failure_noop (m : Memory) (c account : ptr)
    (action : Action) (amount : float) (n : nat) :
  objects m !! c = Some (BankAccountCommand account action amount false) ->
  Command_Undo (S n) c m = Ret tt m.
Proof.
  intros H. cbn [Command_Undo]. unfold bind.
  rewrite (load_object_eq m c _ H).
  unfold BankAccountCommand_Undo, bind.
  rewrite (load_object_eq m c _ H).
  reflexivity.
Qed.

Lemma Undo_after_failure_noop_witness :
  Command_Undo 1 0%nat (one_leaf 700 Withdraw 2000)
    = Ret tt (one_leaf 700 Withdraw 2000).
Proof.
  apply (Undo_after_failure_noop (one_leaf 700 Withdraw 2000) 0%nat 0%nat
           Withdraw 2000 0).
  reflexivity.
Defined.

(** The same after a [Call] that failed: the rejected withdrawal and its
    [Undo] leave the accounts as they were. *)
Lemma Undo_after_failed_Call (m : Memory) (c account : ptr) (amount : float)
    (s : bool) (B : float) (n n' : nat) :
  objects m !! c = Some (BankAccountCommand account Withdraw amount s) ->
  accounts m !! account = Some (mkBankAccount B) ->
  (B - amount <? overdraftLimit)%float = true ->
  exists m1, Command_Call (S n) c m = Ret tt m1 /\
    Command_Succeeded (S n) c m1 = Ret false m1 /\
    Command_Undo (S n') c m1 = Ret tt m1 /\
    accounts m1 = accounts m.
Proof.
  intros H HB Hlt. eexists. split.
  { rewrite (Call_Withdraw m c account amount n s B H HB), Hlt. reflexivity. }
  split; [|split; [|reflexivity]].
  - eapply Succeeded_leaf, with_object_lookup.
  - eapply Undo_not_succeeded, with_object_lookup.
Qed.

(** C5, as amended: a leaf command whose [Call] succeeded and whose
    inverse operation is not rejected by the overdraft floor is undone by
    [Undo] whenever the float64 arithmetic of the round trip is exact:
    [(B + A) - A = B] for a deposit, [(B - A) + A = B] for a withdrawal. *)
Theorem leaf_round_trip (m : Memory) (c account : ptr) (action : Action)
    (amount : float) (s : bool) (B : float) (n : nat) :
  objects m !! c = Some (BankAccountCommand account action amount s) ->
  accounts m !! account = Some (mkBankAccount B) ->
  (action = Deposit /\
     (B + amount - amount <? overdraftLimit)%float = false /\
     (B + amount - amount)%float = B) \/
  (action = Withdraw /\
     (B - amount <? overdraftLimit)%float = false /\
     (B - amount + amount)%float = B) ->
  exists m1 m2,
    Command_Call (S n) c m = Ret tt m1 /\
    Command_Succeeded (S n) c m1 = Ret true m1 /\
    Command_Undo (S n) c m1 = Ret tt m2 /\
    accounts m2 = accounts m.
Proof.
  intros H HB [(-> & Hfloor & Hexact) | (-> & Hok & Hexact)].
  - eexists. eexists. split.
    { apply (Call_Deposit m c account amount n s B H HB). }
    split; [eapply Succeeded_leaf, with_object_lookup|].
    split.
    { rewrite (Undo_Deposit _ c account amount n (B + amount));
        [ | apply with_object_lookup | apply with_balance_lookup ].
      rewrite Hfloor. reflexivity. }
    simpl. rewrite Hexact, insert_insert_eq. by apply insert_id.
  - eexists. eexists. split.
    { rewrite (Call_Withdraw m c account amount n s B H HB), Hok.
      reflexivity. }
    split; [eapply Succeeded_leaf, with_object_lookup|].
    split.
    { apply (Undo_Withdraw _ c account amount n (B - amount));
        [ apply with_object_lookup | apply with_balance_lookup ]. }
    simpl. rewrite Hexact, insert_insert_eq. by apply insert_id.
Qed.

Lemma leaf_round_trip_witness :
  exists m1 m2,
    Command_Call 1 0%nat (one_leaf 1000 Withdraw 200) = Ret tt m1 /\
    Command_Succeeded 1 0%nat m1 = Ret true m1 /\
    Command_Undo 1 0%nat m1 = Ret tt m2 /\
    accounts m2 = accounts (one_leaf 1000 Withdraw 200).
Proof.
  apply (leaf_round_trip (one_leaf 1000 Withdraw 200) 0%nat 0%nat Withdraw 200
           false 1000 0); [reflexivity | reflexivity |].
  right. repeat split; reflexivity.
Defined.

(** C5 as the specification words it fails where float64 rounds: on a
    balance of 0.1, [Deposit(0.2)] succeeds and its undo is not rejected
    by the floor, yet the balance ends at 0.10000000000000003. *)
Lemma leaf_round_trip_counterexample :
  let B := 0x1.999999999999ap-4%float in
  let A := 0x1.999999999999ap-3%float in
  (overdraftLimit <=? B + A - A)%float = true /\
  ~ (forall m1 m2 : Memory,
       Command_Call 1 0%nat (one_leaf B Deposit A) = Ret tt m1 ->
       Command_Succeeded 1 0%nat m1 = Ret true m1 ->
       Command_Undo 1 0%nat m1 = Ret tt m2 ->
       accounts m2 !! 0%nat = accounts (one_leaf B Deposit A) !! 0%nat).
Proof.
  intros B A. split; [reflexivity|]. intros H.
  pose (m1 := with_object 0%nat (BankAccountCommand 0%nat Deposit A true)
                (with_balance 0%nat (B + A) (one_leaf B Deposit A))).
  specialize (H m1 (with_balance 0%nat (B + A - A) m1)).
  rewrite with_balance_lookup in H.
  assert (Some (mkBankAccount (B + A - A)) = Some (mkBankAccount B)) as E.
  { apply H.
    - apply (Call_Deposit _ _ 0%nat A 0 false B); reflexivity.
    - apply (Succeeded_leaf m1 0%nat 0%nat A 0 Deposit true). reflexivity.
    - rewrite (Undo_Deposit m1 0%nat 0%nat A 0 (B + A)) by reflexivity.
      reflexivity. }
  apply (f_equal (fun o => default B (balance <$> o))) in E. simpl in E.
  revert E. apply Float64.neq_by_eqb. reflexivity.
Qed.

(* ------------------------------------------------------------------ *)
(** ** Composite commands *)

Lemma load_commands_composite (m : Memory) (c : ptr) (commands : list ptr) :
  objects m !! c = Some (CompositeBankAccountCommand commands) ->
  load_commands c m = Ret commands m.
Proof. intros H. unfold load_commands, bind. by rewrite (load_object_eq _ _ _ H). Qed.

Lemma load_commands_transfer (m : Memory) (c : ptr) (commands : list ptr)
    (from to : ptr) (amount : float) :
  objects m !! c = Some (MoneyTransferCommand commands from to amount) ->
  load_commands c m = Ret commands m.
Proof. intros H. unfold load_commands, bind. by rewrite (load_object_eq _ _ _ H). Qed.

(** A loop over a concatenation runs the first part, then the second. *)
Lemma range_app (pre post : list ptr) (body : ptr -> M unit) (m : Memory) :
  range (pre ++ post) body m = (range pre body ;; range post body) m.
Proof.
  revert m. induction pre as [|cmd pre IH]; intros m; simpl.
  - reflexivity.
  - unfold bind in *. destruct (body cmd m) as [[] m1| |]; [|reflexivity..].
    apply IH.
Qed.

(** *** Succeeded reads and never writes *)

Lemma all_succeeded_read_only (Succeeded : ptr -> M bool) :
  (forall cmd, read_only (Succeeded cmd)) ->
  forall commands, read_only (all_succeeded Succeeded commands).
Proof.
  intros Hro commands. induction commands as [|cmd rest IH]; intros m b m' H.
  - simpl in H. by injection H as _ <-.
  - simpl in H. unfold bind in H.
    destruct (Succeeded cmd m) as [ok m1| |] eqn:E; try discriminate H.
    apply Hro in E as ->. destruct ok; simpl in H.
    + by apply IH in H.
    + by injection H as _ <-.
Qed.

Lemma Succeeded_read_only (fuel : nat) (c : ptr) :
  read_only (Command_Succeeded fuel c).
Proof.
  revert c. induction fuel as [|fuel IH]; intros c m b m' H.
  - discriminate H.
  - simpl in H. unfold bind, load_object in H.
    destruct (objects m !! c) as [[account action amount s|commands|commands from to amount]|];
      try discriminate H.
    + unfold BankAccountCommand_Succeeded, bind, load_object in H.
      destruct (objects m !! c) as [[]|]; try discriminate H.
      by injection H as _ <-.
    + unfold CompositeBankAccountCommand_Succeeded, bind in H.
      destruct (load_commands c m) as [l m1| |] eqn:E; try discriminate H.
      assert (m1 = m) as ->.
      { unfold load_commands, bind, load_object in E.
        destruct (objects m !! c) as [[]|]; try discriminate E;
          by injection E as _ <-. }
      by apply (all_succeeded_read_only _ IH) in H.
    + unfold CompositeBankAccountCommand_Succeeded, bind in H.
      destruct (load_commands c m) as [l m1| |] eqn:E; try discriminate H.
      assert (m1 = m) as ->.
      { unfold load_commands, bind, load_object in E.
        destruct (objects m !! c) as [[]|]; try discriminate E;
          by injection E as _ <-. }
      by apply (all_succeeded_read_only _ IH) in H.
Qed.

(** *** The loop of Succeeded is the conjunction of the members' answers *)

Section AllSucceeded.
Variable Succeeded : ptr -> M bool.
Hypothesis Succeeded_ro : forall cmd, read_only (Succeeded cmd).

Lemma all_succeeded_true (commands : list ptr) (m : Memory) :
  all_succeeded Succeeded commands m = Ret true m <->
  (forall cmd, cmd ∈ commands -> Succeeded cmd m = Ret true m).
Proof.
  induction commands as [|cmd rest IH]; simpl.
  - split; [intros _ cmd Hin; by apply elem_of_nil in Hin | reflexivity].
  - unfold bind. split.
    + intros H. destruct (Succeeded cmd m) as [ok m1| |] eqn:E;
        try discriminate H.
      apply Succeeded_ro in E as E'. subst m1.
      destruct ok; simpl in H; [|discriminate H].
      intros cmd' [->|Hin]%elem_of_cons; [exact E|].
      by apply IH.
    + intros H. rewrite (H cmd) by apply list_elem_of_here. simpl.
      apply IH. intros cmd' Hin. apply H. by apply list_elem_of_further.
Qed.

(** When every member answers, so does the loop. *)
Lemma all_succeeded_returns (commands : list ptr) (m : Memory) :
  (forall cmd, cmd ∈ commands -> exists b, Succeeded cmd m = Ret b m) ->
  exists b, all_succeeded Succeeded commands m = Ret b m.
Proof.
  induction commands as [|cmd rest IH]; simpl; intros H.
  - by exists true.
  - unfold bind. destruct (H cmd) as [b ->]; [apply list_elem_of_here|].
    destruct b; simpl.
    + apply IH. intros cmd' Hin. apply H. by apply list_elem_of_further.
    + by exists false.
Qed.
End AllSucceeded.

Lemma Succeeded_composite (m : Memory) (c : ptr) (commands : list ptr) (n : nat) :
  objects m !! c = Some (CompositeBankAccountCommand commands) ->
  Command_Succeeded (S n) c m = all_succeeded (Command_Succeeded n) commands m.
Proof. intros H. enter H. reflexivity. Qed.

Lemma Succeeded_transfer (m : Memory) (c : ptr) (commands : list ptr)
    (from to : ptr) (amount : float) (n : nat) :
  objects m !! c = Some (MoneyTransferCommand commands from to amount) ->
  Command_Succeeded (S n) c m = all_succeeded (Command_Succeeded n) commands m.
Proof. intros H. enter H. reflexivity. Qed.

(** C8: [Succeeded] of a composite returns true if and only if
    [Succeeded] of every member returns true; over no member at all it
    returns true; and it returns whenever every member returns. *)
Theorem Composite_Succeeded_iff_all (m : Memory) (c : ptr)
    (commands : list ptr) (n : nat) :
  objects m !! c = Some (CompositeBankAccountCommand commands) ->
  (Command_Succeeded (S n) c m = Ret true m <->
     (forall cmd, cmd ∈ commands -> Command_Succeeded n cmd m = Ret true m))
  /\ (commands = [] -> Command_Succeeded (S n) c m = Ret true m)
  /\ ((forall cmd, cmd ∈ commands ->
         exists b, Command_Succeeded n cmd m = Ret b m) ->
      exists b, Command_Succeeded (S n) c m = Ret b m).
Proof.
  intros H. rewrite (Succeeded_composite m c commands n H).
  split; [|split].
  - apply all_succeeded_true. intros cmd. apply Succeeded_read_only.
  - intros ->. reflexivity.
  - apply all_succeeded_returns.
Qed.

Lemma Composite_Succeeded_iff_all_witness :
  Command_Succeeded 2 2%nat (two_flags true true) = Ret true (two_flags true true)
  /\ Command_Succeeded 2 2%nat (two_flags true false) <> Ret true (two_flags true false).
Proof.
  split.
  - apply (proj1 (Composite_Succeeded_iff_all (two_flags true true) 2%nat
                    [0%nat; 1%nat] 1 ltac:(reflexivity))).
    intros cmd Hin. apply elem_of_cons in Hin as [-> | Hin]; [reflexivity|].
    apply elem_of_cons in Hin as [-> | Hin]; [reflexivity|].
    by apply elem_of_nil in Hin.
  - intros H.
    pose proof (proj1 (proj1 (Composite_Succeeded_iff_all
                  (two_flags true false) 2%nat [0%nat; 1%nat] 1
                  ltac:(reflexivity))) H 1%nat
                  (list_elem_of_further _ _ _ (list_elem_of_here _ _))) as H1.
    discriminate H1.
Defined.

(** *** SetSucceeded writes flags only *)



Lemma flags_only_store (m : Memory) (c account : ptr) (action : Action)
    (amount : float) (s value : bool) :
  objects m !! c = Some (BankAccountCommand account action amount s) ->
  flags_only m (with_object c (BankAccountCommand account action amount value) m).
Proof.
  intros H. split; [reflexivity|]. simpl. rewrite fmap_insert. simpl.
  apply insert_id. rewrite lookup_fmap, H. reflexivity.
Qed.





(** *** Call on a composite and on a transfer *)

Lemma Call_composite (m : Memory) (c : ptr) (commands : list ptr) (n : nat) :
  objects m !! c = Some (CompositeBankAccountCommand commands) ->
  Command_Call (S n) c m = range commands (Command_Call n) m.
Proof. intros H. enter H. reflexivity. Qed.

Lemma Call_transfer (m : Memory) (c : ptr) (commands : list ptr)
    (from to : ptr) (amount : float) (n : nat) :
  objects m !! c = Some (MoneyTransferCommand commands from to amount) ->
  Command_Call (S n) c m =
    transfer_loop (Command_Call n) (Command_Succeeded n)
      (Command_SetSucceeded n) true commands m.
Proof. intros H. enter H. reflexivity. Qed.

Section TransferLoop.
Variable n : nat.

Let loop := transfer_loop (Command_Call n) (Command_Succeeded n)
              (Command_SetSucceeded n).

(** Once [succeded] is false the loop only marks what is left. *)
Lemma transfer_loop_false (commands : list ptr) (m : Memory) :
  loop false commands m =
    range commands (fun cmd => Command_SetSucceeded n cmd false) m.
Proof.
  revert m. induction commands as [|cmd rest IH]; intros m; simpl.
  - reflexivity.
  - unfold bind. destruct (Command_SetSucceeded n cmd false m); try reflexivity.
    apply IH.
Qed.

Lemma transfer_loop_prefix (pre rest : list ptr) (m m1 : Memory) :
  called_with_success n pre m m1 ->
  loop true (pre ++ rest) m = loop true rest m1.
Proof.
  induction 1 as [m|cmd pre m m1 m2 Hcall Hsucc _ IH]; simpl.
  - reflexivity.
  - unfold bind. rewrite Hcall, Hsucc. apply IH.
Qed.

(** After the first member that fails the loop calls no one. *)
Lemma transfer_loop_failure (pre post : list ptr) (cmd : ptr)
    (m m1 m2 : Memory) :
  called_with_success n pre m m1 ->
  Command_Call n cmd m1 = Ret tt m2 ->
  Command_Succeeded n cmd m2 = Ret false m2 ->
  loop true (pre ++ cmd :: post) m =
    range post (fun cmd' => Command_SetSucceeded n cmd' false) m2.
Proof.
  intros Hpre Hcall Hsucc. rewrite (transfer_loop_prefix _ _ _ _ Hpre).
  simpl. unfold bind. rewrite Hcall, Hsucc. apply transfer_loop_false.
Qed.
End TransferLoop.

(** The base composite goes on after a member has returned, whatever that
    member reports. *)
Lemma range_step (body : ptr -> M unit) (pre post : list ptr) (cmd : ptr)
    (m m1 m2 : Memory) :
  range pre body m = Ret tt m1 ->
  body cmd m1 = Ret tt m2 ->
  range (pre ++ cmd :: post) body m = range post body m2.
Proof.
  intros Hpre Hcmd. rewrite range_app. unfold bind. rewrite Hpre. simpl.
  unfold bind. rewrite Hcmd. reflexivity.
Qed.

(** C7: [Call] on a composite calls its members one after the other in
    the order of the slice: whenever the members before [cmd] have
    returned, [cmd] is called, and when it returns the members after it
    follow, whether or not [cmd] succeeded.  [Call] on a transfer differs:
    after the first member that reports failure it calls none of the
    members left and sets their flags to false. *)
Theorem Composite_Call_no_short_circuit (m : Memory) (c : ptr)
    (pre post : list ptr) (cmd : ptr) (n : nat) (m1 m2 : Memory) :
  Command_Call n cmd m1 = Ret tt m2 ->
  (objects m !! c = Some (CompositeBankAccountCommand (pre ++ cmd :: post)) ->
   range pre (Command_Call n) m = Ret tt m1 ->
   Command_Call (S n) c m = range post (Command_Call n) m2)
  /\ (forall from to amount,
        objects m !! c
          = Some (MoneyTransferCommand (pre ++ cmd :: post) from to amount) ->
        called_with_success n pre m m1 ->
        Command_Succeeded n cmd m2 = Ret false m2 ->
        Command_Call (S n) c m =
          range post (fun cmd' => Command_SetSucceeded n cmd' false) m2).
Proof.
  intros Hcmd. split.
  - intros Hc Hpre. rewrite (Call_composite m c _ n Hc).
    by apply range_step with (m1 := m1).
  - intros from to amount Hc Hpre Hfail.
    rewrite (Call_transfer m c _ from to amount n Hc).
    by apply transfer_loop_failure with (m1 := m1).
Qed.

(** With 700 in the first account, the withdrawal of 2000 is rejected; the
    composite deposits the 2000 all the same, the transfer does not. *)
Lemma Composite_Call_no_short_circuit_witness :
  Command_Call 2 2%nat (composite_memory 700 500 2000 false false)
    = Ret tt (composite_memory 700 2500 2000 false true)
  /\ Command_Call 2 2%nat (transfer_memory 700 500 2000 false false)
    = Ret tt (transfer_memory 700 500 2000 false false).
Proof.
  split.
  - rewrite (proj1 (Composite_Call_no_short_circuit
               (composite_memory 700 500 2000 false false) 2%nat
               [] [1%nat] 0%nat 1
               (composite_memory 700 500 2000 false false)
               (composite_memory 700 500 2000 false false)
               ltac:(vm_compute; reflexivity))
             ltac:(reflexivity) ltac:(reflexivity)).
    vm_compute. reflexivity.
  - rewrite (proj2 (Composite_Call_no_short_circuit
               (transfer_memory 700 500 2000 false false) 2%nat
               [] [1%nat] 0%nat 1
               (transfer_memory 700 500 2000 false false)
               (transfer_memory 700 500 2000 false false)
               ltac:(vm_compute; reflexivity))
             0%nat 1%nat 2000%float
             ltac:(reflexivity) (called_nil 1 _) ltac:(reflexivity)).
    vm_compute. reflexivity.
Defined.

(* ------------------------------------------------------------------ *)
(** ** Money transfers *)

Lemma is_transfer_distinct (m : Memory) (t w d from to : ptr) (amount : float)
    (sw sd : bool) :
  is_transfer m t w d from to amount sw sd -> w <> d /\ w <> t /\ d <> t.
Proof.
  unfold is_transfer, Withdraw, Deposit. intros (Ht & Hw & Hd).
  repeat split; intros ->; congruence.
Qed.

Lemma is_transfer_with_balance (m : Memory) (t w d from to : ptr)
    (amount : float) (sw sd : bool) (account : ptr) (b : float) :
  is_transfer m t w d from to amount sw sd ->
  is_transfer (with_balance account b m) t w d from to amount sw sd.
Proof. intros H. exact H. Qed.

Lemma is_transfer_set_w (m : Memory) (t w d from to : ptr) (amount : float)
    (sw sd value : bool) :
  is_transfer m t w d from to amount sw sd ->
  is_transfer (with_object w (BankAccountCommand from Withdraw amount value) m)
    t w d from to amount value sd.
Proof.
  intros H. destruct (is_transfer_distinct _ _ _ _ _ _ _ _ _ H) as (Hwd & Hwt & _).
  destruct H as (Ht & Hw & Hd). repeat split.
  - by rewrite with_object_lookup_ne.
  - apply with_object_lookup.
  - by rewrite with_object_lookup_ne.
Qed.

Lemma is_transfer_set_d (m : Memory) (t w d from to : ptr) (amount : float)
    (sw sd value : bool) :
  is_transfer m t w d from to amount sw sd ->
  is_transfer (with_object d (BankAccountCommand to Deposit amount value) m)
    t w d from to amount sw value.
Proof.
  intros H. destruct (is_transfer_distinct _ _ _ _ _ _ _ _ _ H) as (Hwd & _ & Hdt).
  destruct H as (Ht & Hw & Hd). repeat split.
  - by rewrite with_object_lookup_ne.
  - by rewrite with_object_lookup_ne.
  - apply with_object_lookup.
Qed.

(** The constructor allocates the two leaf commands and the transfer, and
    touches no account. *)
Lemma NewMoneyTransferCommand_is_transfer (from to : ptr) (amount : float)
    (m : Memory) :
  exists t w d m1,
    NewMoneyTransferCommand from to amount m = Ret t m1 /\
    accounts m1 = accounts m /\
    is_transfer m1 t w d from to amount false false.
Proof.
  set (w := fresh (dom (objects m))).
  set (m_w := with_object w (BankAccountCommand from Withdraw amount false) m).
  set (d := fresh (dom (objects m_w))).
  set (m_d := with_object d (BankAccountCommand to Deposit amount false) m_w).
  set (t := fresh (dom (objects m_d))).
  exists t, w, d,
    (with_object t (MoneyTransferCommand [w; d] from to amount) m_d).
  split; [reflexivity|]. split; [reflexivity|].
  assert (d ∉ dom (objects m_w)) as Hd by apply is_fresh.
  assert (t ∉ dom (objects m_d)) as Ht by apply is_fresh.
  unfold m_d, m_w, with_object in Hd, Ht. simpl in Hd, Ht.
  rewrite !dom_insert_L in Ht. rewrite dom_insert_L in Hd.
  assert (d <> w) by set_solver. assert (t <> w) by set_solver.
  assert (t <> d) by set_solver.
  unfold is_transfer, m_d, m_w, with_object. simpl. repeat split.
  - apply lookup_insert_eq.
  - rewrite lookup_insert_ne by done. rewrite lookup_insert_ne by done.
    apply lookup_insert_eq.
  - rewrite lookup_insert_ne by done. apply lookup_insert_eq.
Qed.

Section Transfer.
Variables (m : Memory) (t w d from to : ptr) (amount : float) (n : nat).

(** [Succeeded] of a transfer is the conjunction of its two flags. *)
Lemma Transfer_Succeeded (sw sd : bool) :
  is_transfer m t w d from to amount sw sd ->
  Command_Succeeded (S (S n)) t m = Ret (sw && sd) m.
Proof.
  intros (Ht & Hw & Hd).
  rewrite (Succeeded_transfer m t [w; d] from to amount (S n) Ht).
  cbn [all_succeeded]. unfold bind.
  rewrite (Succeeded_leaf m w from amount n Withdraw sw Hw).
  destruct sw; [|reflexivity]. cbn [negb].
  rewrite (Succeeded_leaf m d to amount n Deposit sd Hd).
  destruct sd; reflexivity.
Qed.

(** A rejected withdrawal: the deposit is not run, both flags end
    false. *)
Lemma Transfer_Call_rejected (sw sd : bool) (F : float) :
  is_transfer m t w d from to amount sw sd ->
  accounts m !! from = Some (mkBankAccount F) ->
  (F - amount <? overdraftLimit)%float = true ->
  Command_Call (S (S n)) t m =
    Ret tt (with_object d (BankAccountCommand to Deposit amount false)
              (with_object w (BankAccountCommand from Withdraw amount false) m)).
Proof.
  intros H HF Hlt.
  pose proof (is_transfer_set_w _ _ _ _ _ _ _ _ _ false H) as (_ & Hw1 & Hd1).
  destruct H as (Ht & Hw & Hd).
  rewrite (Call_transfer m t [w; d] from to amount (S n) Ht).
  cbn [transfer_loop]. unfold bind.
  rewrite (Call_Withdraw m w from amount n sw F Hw HF), Hlt.
  rewrite (Succeeded_leaf _ w from amount n Withdraw false Hw1).
  rewrite (SetSucceeded_leaf _ d to amount n Deposit sd false Hd1).
  reflexivity.
Qed.

(** An accepted withdrawal: the deposit runs on what the withdrawal
    left, both flags end true.  [T] is what [to] holds once the
    withdrawal is done, which matters when [to] is [from]. *)
Lemma Transfer_Call_accepted (sw sd : bool) (F T : float) :
  is_transfer m t w d from to amount sw sd ->
  accounts m !! from = Some (mkBankAccount F) ->
  (F - amount <? overdraftLimit)%float = false ->
  accounts (with_balance from (F - amount) m) !! to = Some (mkBankAccount T) ->
  Command_Call (S (S n)) t m =
    Ret tt (with_object d (BankAccountCommand to Deposit amount true)
              (with_balance to (T + amount)
                 (with_object w (BankAccountCommand from Withdraw amount true)
                    (with_balance from (F - amount) m)))).
Proof.
  intros H HF Hok HT.
  pose proof (is_transfer_set_w _ _ _ _ _ _ _ _ _ true
                (is_transfer_with_balance _ _ _ _ _ _ _ _ _ from (F - amount) H))
    as (_ & Hw1 & Hd1).
  destruct H as (Ht & Hw & Hd).
  rewrite (Call_transfer m t [w; d] from to amount (S n) Ht).
  cbn [transfer_loop]. unfold bind.
  rewrite (Call_Withdraw m w from amount n sw F Hw HF), Hok.
  rewrite (Succeeded_leaf _ w from amount n Withdraw true Hw1).
  rewrite (Call_Deposit _ d to amount n sd T Hd1 HT).
  rewrite (Succeeded_leaf _ d to amount n Deposit true)
    by apply with_object_lookup.
  reflexivity.
Qed.

(** [Undo] of a transfer, in the order of the loop: the deposit on [to]
    is undone first, by a withdrawal that the floor may reject, then the
    withdrawal on [from], by a deposit. *)
Lemma Transfer_Undo_order (sw sd : bool) :
  is_transfer m t w d from to amount sw sd ->
  Command_Undo (S (S n)) t m =
    (Command_Undo (S n) d ;; Command_Undo (S n) w ;; ret tt) m.
Proof.
  intros (Ht & Hw & Hd). enter Ht. reflexivity.
Qed.
End Transfer.

Section TransferUndo.
Variables (m : Memory) (t w d from to : ptr) (amount : float) (n : nat).
Hypothesis Ht : is_transfer m t w d from to amount true true.

(** [Undo] after a transfer that succeeded, when the floor lets the
    deposit be undone.  [F] is what [from] holds once [to] is back. *)
Lemma Transfer_Undo (T F : float) :
  accounts m !! to = Some (mkBankAccount T) ->
  (T - amount <? overdraftLimit)%float = false ->
  accounts (with_balance to (T - amount) m) !! from = Some (mkBankAccount F) ->
  Command_Undo (S (S n)) t m =
    Ret tt (with_balance from (F + amount) (with_balance to (T - amount) m)).
Proof.
  intros HT Hok HF. rewrite (Transfer_Undo_order _ _ _ _ _ _ _ _ _ _ Ht).
  destruct Ht as (_ & Hw & Hd). unfold bind.
  rewrite (Undo_Deposit m d to amount n T Hd HT), Hok.
  rewrite (Undo_Withdraw (with_balance to (T - amount) m) w from amount n F
             Hw HF).
  reflexivity.
Qed.

(** The same when the floor rejects the withdrawal that should undo the
    deposit: [to] keeps the money, and [from] gets it back as well. *)
Lemma Transfer_Undo_rejected (T F : float) :
  accounts m !! to = Some (mkBankAccount T) ->
  (T - amount <? overdraftLimit)%float = true ->
  accounts m !! from = Some (mkBankAccount F) ->
  Command_Undo (S (S n)) t m = Ret tt (with_balance from (F + amount) m).
Proof.
  intros HT Hrej HF. rewrite (Transfer_Undo_order _ _ _ _ _ _ _ _ _ _ Ht).
  destruct Ht as (_ & Hw & Hd). unfold bind.
  rewrite (Undo_Deposit m d to amount n T Hd HT), Hrej.
  rewrite (Undo_Withdraw _ w from amount n F Hw HF). reflexivity.
Qed.
End TransferUndo.

(** C1: when [from.balance - amount < overdraftLimit], building the
    transfer and calling it leaves every account balance as it was, the
    deposit leg is not run and its flag is set to false, and [Succeeded]
    returns false.  [from] and [to] may be the same account. *)
Theorem Transfer_atomic_on_failure (m : Memory) (from to : ptr)
    (amount F : float) (n : nat) :
  accounts m !! from = Some (mkBankAccount F) ->
  (F - amount <? overdraftLimit)%float = true ->
  exists t w d m1 m2,
    NewMoneyTransferCommand from to amount m = Ret t m1 /\
    Command_Call (S (S n)) t m1 = Ret tt m2 /\
    accounts m2 = accounts m /\
    is_transfer m2 t w d from to amount false false /\
    Command_Succeeded (S (S n)) t m2 = Ret false m2.
Proof.
  intros HF Hlt.
  destruct (NewMoneyTransferCommand_is_transfer from to amount m)
    as (t & w & d & m1 & Hnew & Hacc & Hshape).
  rewrite <- Hacc in HF.
  exists t, w, d, m1. eexists. split; [exact Hnew|]. split.
  { apply (Transfer_Call_rejected m1 t w d from to amount n false false F
             Hshape HF Hlt). }
  split; [exact Hacc|].
  assert (is_transfer
            (with_object d (BankAccountCommand to Deposit amount false)
               (with_object w (BankAccountCommand from Withdraw amount false) m1))
            t w d from to amount false false) as Hshape2.
  { apply is_transfer_set_d with (sd := false).
    apply is_transfer_set_w with (sw := false). exact Hshape. }
  split; [exact Hshape2|].
  apply (Transfer_Succeeded _ t w d from to amount n false false Hshape2).
Qed.

Lemma Transfer_atomic_on_failure_witness :
  exists t w d m1 m2,
    NewMoneyTransferCommand 0%nat 1%nat 2000 (two_accounts 700 800) = Ret t m1 /\
    Command_Call 2 t m1 = Ret tt m2 /\
    accounts m2 = accounts (two_accounts 700 800) /\
    is_transfer m2 t w d 0%nat 1%nat 2000 false false /\
    Command_Succeeded 2 t m2 = Ret false m2.
Proof.
  apply (Transfer_atomic_on_failure (two_accounts 700 800) 0%nat 1%nat 2000 700 0);
    reflexivity.
Defined.

(** C2: for two different accounts, when
    [from.balance - amount >= overdraftLimit], building the transfer and
    calling it takes [amount] off [from.balance], adds [amount] to
    [to.balance], leaves the other accounts alone, and [Succeeded] returns
    true. *)
Theorem Transfer_success (m : Memory) (from to : ptr) (amount F T : float)
    (n : nat) :
  from <> to ->
  accounts m !! from = Some (mkBankAccount F) ->
  accounts m !! to = Some (mkBankAccount T) ->
  (overdraftLimit <=? F - amount)%float = true ->
  exists t m1 m2,
    NewMoneyTransferCommand from to amount m = Ret t m1 /\
    Command_Call (S (S n)) t m1 = Ret tt m2 /\
    accounts m2 !! from = Some (mkBankAccount (F - amount)) /\
    accounts m2 !! to = Some (mkBankAccount (T + amount)) /\
    (forall p, p <> from -> p <> to -> accounts m2 !! p = accounts m !! p) /\
    Command_Succeeded (S (S n)) t m2 = Ret true m2.
Proof.
  intros Hne HF HT Hle. apply Float64.leb_ltb_false in Hle.
  destruct (NewMoneyTransferCommand_is_transfer from to amount m)
    as (t & w & d & m1 & Hnew & Hacc & Hshape).
  rewrite <- Hacc in HF, HT.
  assert (accounts (with_balance from (F - amount) m1) !! to
          = Some (mkBankAccount T)) as HT'.
  { by rewrite with_balance_lookup_ne. }
  exists t, m1. eexists. split; [exact Hnew|]. split.
  { apply (Transfer_Call_accepted m1 t w d from to amount n false false F T
             Hshape HF Hle HT'). }
  simpl. rewrite Hacc. split; [by simplify_map_eq|].
  split; [by simplify_map_eq|]. split.
  { intros p Hpf Hpt. by simplify_map_eq. }
  apply (Transfer_Succeeded _ t w d from to amount n true true).
  apply is_transfer_set_d with (sd := false).
  apply (is_transfer_with_balance _ t w d from to).
  apply is_transfer_set_w with (sw := false).
  apply (is_transfer_with_balance _ t w d from to). exact Hshape.
Qed.

Lemma Transfer_success_witness :
  exists t m1 m2,
    NewMoneyTransferCommand 0%nat 1%nat 300 (two_accounts 1000 500) = Ret t m1 /\
    Command_Call 2 t m1 = Ret tt m2 /\
    accounts m2 !! 0%nat = Some (mkBankAccount (1000 - 300)) /\
    accounts m2 !! 1%nat = Some (mkBankAccount (500 + 300)) /\
    (forall p, p <> 0%nat -> p <> 1%nat ->
       accounts m2 !! p = accounts (two_accounts 1000 500) !! p) /\
    Command_Succeeded 2 t m2 = Ret true m2.
Proof.
  apply (Transfer_success (two_accounts 1000 500) 0%nat 1%nat 300 1000 500 0);
    [discriminate | reflexivity | reflexivity | reflexivity].
Defined.

(** C3, as amended: after a transfer whose [Call] succeeded, [Undo] runs
    the undo of the deposit on [to] and then the undo of the withdrawal on
    [from], and every account is back at its balance from before the
    [Call], provided that the floor does not reject taking the amount back
    from [to] and that the float64 round trips are exact:
    [(F - A) + A = F] and [(T + A) - A = T].  [from] and [to] may be the
    same account. *)
Theorem Transfer_undo_round_trip (m : Memory) (from to : ptr)
    (amount F T : float) (n : nat) :
  accounts m !! from = Some (mkBankAccount F) ->
  accounts m !! to = Some (mkBankAccount T) ->
  (F - amount <? overdraftLimit)%float = false ->
  (T + amount - amount <? overdraftLimit)%float = false ->
  (F - amount + amount)%float = F ->
  (T + amount - amount)%float = T ->
  exists t w d m1 m2 m3,
    NewMoneyTransferCommand from to amount m = Ret t m1 /\
    Command_Call (S (S n)) t m1 = Ret tt m2 /\
    Command_Succeeded (S (S n)) t m2 = Ret true m2 /\
    is_transfer m2 t w d from to amount true true /\
    Command_Undo (S (S n)) t m2
      = (Command_Undo (S n) d ;; Command_Undo (S n) w ;; ret tt) m2 /\
    Command_Undo (S (S n)) t m2 = Ret tt m3 /\
    accounts m3 = accounts m.
Proof.
  intros HF HT Hok Hfloor HexF HexT.
  destruct (NewMoneyTransferCommand_is_transfer from to amount m)
    as (t & w & d & m1 & Hnew & Hacc & Hshape).
  rewrite <- Hacc in HF, HT.
  set (T' := if decide (from = to) then (F - amount)%float else T).
  assert (accounts (with_balance from (F - amount) m1) !! to
          = Some (mkBankAccount T')) as HT'.
  { unfold T'. destruct (decide (from = to)) as [<-|Hne].
    - apply with_balance_lookup.
    - by rewrite with_balance_lookup_ne. }
  pose proof (Transfer_Call_accepted m1 t w d from to amount n false false F T'
                Hshape HF Hok HT') as Hcall.
  set (m2 := with_object d (BankAccountCommand to Deposit amount true)
               (with_balance to (T' + amount)
                  (with_object w (BankAccountCommand from Withdraw amount true)
                     (with_balance from (F - amount) m1)))) in *.
  assert (is_transfer m2 t w d from to amount true true) as Hshape2.
  { apply is_transfer_set_d with (sd := false).
    apply (is_transfer_with_balance _ t w d from to).
    apply is_transfer_set_w with (sw := false).
    apply (is_transfer_with_balance _ t w d from to). exact Hshape. }
  assert (accounts m2 !! to = Some (mkBankAccount (T' + amount))) as HT2.
  { apply lookup_insert_eq. }
  assert ((T' + amount - amount <? overdraftLimit)%float = false) as Hfloor'.
  { unfold T'. destruct (decide (from = to)); [|exact Hfloor].
    by rewrite HexF. }
  assert (accounts (with_balance to (T' + amount - amount) m2) !! from
          = Some (mkBankAccount (F - amount))) as HF2.
  { unfold T'. destruct (decide (from = to)) as [<-|Hne].
    - rewrite HexF. apply with_balance_lookup.
    - rewrite with_balance_lookup_ne by done. unfold m2. simpl.
      rewrite lookup_insert_ne by done. apply lookup_insert_eq. }
  exists t, w, d, m1, m2. eexists.
  split; [exact Hnew|]. split; [exact Hcall|].
  split; [apply (Transfer_Succeeded _ t w d from to amount n true true Hshape2)|].
  split; [exact Hshape2|].
  split; [apply (Transfer_Undo_order _ t w d from to amount n true true Hshape2)|].
  split.
  { apply (Transfer_Undo m2 t w d from to amount n Hshape2 (T' + amount)
             (F - amount) HT2 Hfloor' HF2). }
  simpl. rewrite HexF. rewrite <- Hacc. unfold T'.
  destruct (decide (from = to)) as [<-|Hne].
  - rewrite HexF. rewrite !insert_insert_eq. by apply insert_id.
  - rewrite HexT. apply map_eq. intros p.
    destruct (decide (p = from)) as [->|]; [by simplify_map_eq|].
    destruct (decide (p = to)) as [->|]; by simplify_map_eq.
Qed.

Lemma Transfer_undo_round_trip_witness :
  exists t w d m1 m2 m3,
    NewMoneyTransferCommand 0%nat 1%nat 300 (two_accounts 1000 500) = Ret t m1 /\
    Command_Call 2 t m1 = Ret tt m2 /\
    Command_Succeeded 2 t m2 = Ret true m2 /\
    is_transfer m2 t w d 0%nat 1%nat 300 true true /\
    Command_Undo 2 t m2 = (Command_Undo 1 d ;; Command_Undo 1 w ;; ret tt) m2 /\
    Command_Undo 2 t m2 = Ret tt m3 /\
    accounts m3 = accounts (two_accounts 1000 500).
Proof.
  apply (Transfer_undo_round_trip (two_accounts 1000 500) 0%nat 1%nat 300
           1000 500 0); reflexivity.
Defined.

(** C3 as the specification words it fails when [to] starts below the
    floor: from accounts holding 1000 and -1000, the transfer of 300
    succeeds, and its [Undo] leaves -700 in [to], because the withdrawal
    that should take the 300 back is rejected. *)
Lemma Transfer_undo_round_trip_counterexample :
  ~ (forall (t : ptr) (m1 m2 m3 : Memory),
       NewMoneyTransferCommand 0%nat 1%nat 300 (two_accounts 1000 (-1000))
         = Ret t m1 ->
       Command_Call 2 t m1 = Ret tt m2 ->
       Command_Succeeded 2 t m2 = Ret true m2 ->
       Command_Undo 2 t m2 = Ret tt m3 ->
       accounts m3 !! 0%nat = accounts (two_accounts 1000 (-1000)) !! 0%nat /\
       accounts m3 !! 1%nat = accounts (two_accounts 1000 (-1000)) !! 1%nat).
Proof.
  intros H.
  destruct (H 2%nat (transfer_memory 1000 (-1000) 300 false false)
              (transfer_memory 700 (-700) 300 true true)
              (transfer_memory 1000 (-700) 300 true true)) as [_ E];
    try (vm_compute; reflexivity).
  apply (f_equal (fun o => default 0%float (balance <$> o))) in E.
  vm_compute in E. revert E. apply Float64.neq_by_eqb. reflexivity.
Qed.

(* ------------------------------------------------------------------ *)
(** ** The scenarios of main

    The balances and answers that the program prints. *)

Example main_simple_prints :
  result (main_simple (mkMemory ∅ ∅)) = Some [800; 1300; 1500; 1000]%float.
Proof. vm_compute. reflexivity. Qed.

Example main_transfer_prints :
  result (main_transfer (mkMemory ∅ ∅))
  = Some ([700; 800; 1000; 500; 1000; 500; 1000; 500]%float, [true; false]).
Proof. vm_compute. reflexivity. Qed.

(* ------------------------------------------------------------------ *)
(** ** More fuel changes nothing

    A call that ends within [n] nested calls through the interface ends
    the same way within any larger budget: the budget is a device of the
    embedding and no result depends on it. *)

Lemma extends_refl {A} (c : M A) : extends c c.
Proof. intros m _. reflexivity. Qed.

Lemma extends_trans {A} (c1 c2 c3 : M A) :
  extends c1 c2 -> extends c2 c3 -> extends c1 c3.
Proof.
  intros H12 H23 m H. pose proof (H12 m H) as E.
  rewrite <- E. apply H23. by rewrite E.
Qed.

Lemma extends_bind {A B} (c c' : M A) (k k' : A -> M B) :
  extends c c' -> (forall a, extends (k a) (k' a)) ->
  extends (bind c k) (bind c' k').
Proof.
  intros Hc Hk m H. unfold bind in *.
  destruct (c m) as [a m1| |] eqn:E.
  - rewrite (Hc m) by congruence. rewrite E. by apply Hk.
  - rewrite (Hc m) by congruence. by rewrite E.
  - congruence.
Qed.

Lemma extends_range (body body' : ptr -> M unit) (commands : list ptr) :
  (forall cmd, extends (body cmd) (body' cmd)) ->
  extends (range commands body) (range commands body').
Proof.
  intros Hb. induction commands as [|cmd rest IH]; simpl.
  - apply extends_refl.
  - apply extends_bind; [apply Hb | intros _; apply IH].
Qed.

Lemma extends_all_succeeded (f f' : ptr -> M bool) (commands : list ptr) :
  (forall cmd, extends (f cmd) (f' cmd)) ->
  extends (all_succeeded f commands) (all_succeeded f' commands).
Proof.
  intros Hf. induction commands as [|cmd rest IH]; simpl.
  - apply extends_refl.
  - apply extends_bind; [apply Hf|].
    intros []; simpl; [apply IH | apply extends_refl].
Qed.

Lemma extends_undo_down (f f' : ptr -> M unit) (commands : list ptr) (i : nat) :
  (forall cmd, extends (f cmd) (f' cmd)) ->
  extends (undo_down f i commands) (undo_down f' i commands).
Proof.
  intros Hf. induction i as [|i IH]; simpl.
  - apply extends_refl.
  - destruct (commands !! i); [|apply extends_refl].
    apply extends_bind; [apply Hf | intros _; apply IH].
Qed.

Lemma extends_transfer_loop (call call' : ptr -> M unit)
    (succ succ' : ptr -> M bool) (set set' : ptr -> bool -> M unit)
    (commands : list ptr) (b : bool) :
  (forall cmd, extends (call cmd) (call' cmd)) ->
  (forall cmd, extends (succ cmd) (succ' cmd)) ->
  (forall cmd v, extends (set cmd v) (set' cmd v)) ->
  extends (transfer_loop call succ set b commands)
          (transfer_loop call' succ' set' b commands).
Proof.
  intros Hc Hs Ht. revert b.
  induction commands as [|cmd rest IH]; intros b; simpl.
  - apply extends_refl.
  - destruct b.
    + apply extends_bind; [apply Hc|]. intros _.
      apply extends_bind; [apply Hs|]. intros ok. apply IH.
    + apply extends_bind; [apply Ht|]. intros _. apply IH.
Qed.

(** Each proof below is the dispatch read once more: the leaf methods do
    not depend on the budget, and the composite ones pass it on to the
    loops above. *)
Ltac through_dispatch loop_lemma :=
  cbn [Command_Call Command_Undo Command_Succeeded Command_SetSucceeded];
  apply extends_bind; [apply extends_refl|]; intros [];
  try apply extends_refl;
  unfold CompositeBankAccountCommand_Call, CompositeBankAccountCommand_Undo,
    CompositeBankAccountCommand_Succeeded,
    CompositeBankAccountCommand_SetSucceeded, MoneyTransferCommand_Call;
  (apply extends_bind; [apply extends_refl|]); intros l; loop_lemma.

Lemma Succeeded_fuel (n : nat) (c : ptr) :
  extends (Command_Succeeded n c) (Command_Succeeded (S n) c).
Proof.
  revert c. induction n as [|n IH]; intros c.
  - intros m H. by destruct H.
  - through_dispatch ltac:(by apply extends_all_succeeded).
Qed.

Lemma SetSucceeded_fuel (n : nat) (c : ptr) (value : bool) :
  extends (Command_SetSucceeded n c value) (Command_SetSucceeded (S n) c value).
Proof.
  revert c. induction n as [|n IH]; intros c.
  - intros m H. by destruct H.
  - through_dispatch ltac:(apply extends_range; intros cmd; apply IH).
Qed.

Lemma Undo_fuel (n : nat) (c : ptr) :
  extends (Command_Undo n c) (Command_Undo (S n) c).
Proof.
  revert c. induction n as [|n IH]; intros c.
  - intros m H. by destruct H.
  - through_dispatch ltac:(by apply extends_undo_down).
Qed.

Lemma Call_fuel (n : nat) (c : ptr) :
  extends (Command_Call n c) (Command_Call (S n) c).
Proof.
  revert c. induction n as [|n IH]; intros c.
  - intros m H. by destruct H.
  - through_dispatch
      ltac:(first [ by apply extends_range
                  | apply extends_transfer_loop;
                    [ apply IH | apply Succeeded_fuel
                    | intros cmd v; apply SetSucceeded_fuel ] ]).
Qed.

(** So an answer of [Succeeded] is an answer at every larger budget, and
    the characterisation of the composite's answer can be read without
    budgets: the composite answers true exactly when every member does. *)
Lemma Succeeded_fuel_le (n n' : nat) (c : ptr) (m : Memory) (b : bool) :
  (n <= n')%nat ->
  Command_Succeeded n c m = Ret b m -> Command_Succeeded n' c m = Ret b m.
Proof.
  induction 1 as [|n' _ IH]; [done|]. intros H.
  rewrite (Succeeded_fuel n' c m); rewrite (IH H); done.
Qed.

Lemma Composite_Succeeded_any_fuel (m : Memory) (c : ptr) (commands : list ptr) :
  objects m !! c = Some (CompositeBankAccountCommand commands) ->
  (exists n, Command_Succeeded n c m = Ret true m) <->
  (forall cmd, cmd ∈ commands -> exists n, Command_Succeeded n cmd m = Ret true m).
Proof.
  intros Hc. split.
  - intros [[|n] H]; [discriminate H|].
    rewrite (Succeeded_composite m c commands n Hc) in H.
    intros cmd Hin. exists n. revert cmd Hin.
    apply all_succeeded_true; [|exact H].
    intros cmd. apply Succeeded_read_only.
  - intros H.
    assert (exists n, forall cmd, cmd ∈ commands ->
                      Command_Succeeded n cmd m = Ret true m) as [n Hn].
    { clear Hc. induction commands as [|cmd rest IH].
      - exists 0%nat. intros cmd Hin. by apply elem_of_nil in Hin.
      - destruct (H cmd) as [n1 H1]; [apply list_elem_of_here|].
        destruct IH as [n2 H2].
        { intros cmd' Hin. apply H. by apply list_elem_of_further. }
        exists (n1 `max` n2)%nat. intros cmd' [->|Hin]%elem_of_cons.
        + apply (Succeeded_fuel_le n1); [lia | exact H1].
        + apply (Succeeded_fuel_le n2); [lia | by apply H2]. }
    exists (S n). rewrite (Succeeded_composite m c commands n Hc).
    apply all_succeeded_true; [|exact Hn].
    intros cmd. apply Succeeded_read_only.
Qed.

(* ------------------------------------------------------------------ *)
(** * Further properties of the code *)

(** ** The loops of the composite *)

(** The downward index loop of [Undo] never reads outside the slice, and
    visits it from its last member to its first. *)
Lemma undo_down_prefix (Undo : ptr -> M unit) (pre post : list ptr) :
  undo_down Undo (length pre) (pre ++ post) = range (reverse pre) Undo.
Proof.
  revert post. induction pre as [|cmd pre IH] using rev_ind; intros post.
  - reflexivity.
  - rewrite length_app, Nat.add_1_r, reverse_app. cbn [undo_down].
    rewrite <- app_assoc.
    change ([cmd] ++ post) with (cmd :: post).
    rewrite (list_lookup_middle pre post cmd (length pre) eq_refl).
    simpl. by rewrite (IH (cmd :: post)).
Qed.

(** X1: [Undo] on a composite, and on a transfer, which inherits the
    method, is the loop that calls [Undo] on every member of the slice in
    reverse order; its index never leaves the slice. *)
Theorem Composite_Undo_reverse_order (m : Memory) (c : ptr)
    (commands : list ptr) (n : nat) :
  objects m !! c = Some (CompositeBankAccountCommand commands) \/
  (exists from to amount,
     objects m !! c = Some (MoneyTransferCommand commands from to amount)) ->
  Command_Undo (S n) c m = range (reverse commands) (Command_Undo n) m.
Proof.
  intros [H | (from & to & amount & H)]; enter H;
    rewrite <- (app_nil_r commands) at 2;
    by rewrite undo_down_prefix.
Qed.

Lemma Composite_Undo_reverse_order_witness :
  Command_Undo 2 2%nat (composite_memory 800 1300 200 true true)
  = range (reverse [0%nat; 1%nat]) (Command_Undo 1)
      (composite_memory 800 1300 200 true true).
Proof.
  apply (Composite_Undo_reverse_order
           (composite_memory 800 1300 200 true true) 2%nat [0%nat; 1%nat] 1).
  left. reflexivity.
Defined.

(** Members that all report success after their call are what the plain
    loop calls as well. *)
Lemma called_with_success_range (n : nat) (commands : list ptr) (m m' : Memory) :
  called_with_success n commands m m' ->
  range commands (Command_Call n) m = Ret tt m'.
Proof.
  induction 1 as [m|cmd rest m m1 m2 Hcall _ _ IH]; simpl.
  - reflexivity.
  - unfold bind. rewrite Hcall. exact IH.
Qed.

(** X2: as long as no member fails, the short circuit of the transfer
    makes no difference: on one and the same slice whose members all
    report success after their call, [Call] of a transfer and [Call] of a
    plain composite return the same memory. *)
Theorem Transfer_Call_agrees_with_Composite (n : nat) (commands : list ptr)
    (c t from to : ptr) (amount : float) (m m' : Memory) :
  objects m !! c = Some (CompositeBankAccountCommand commands) ->
  objects m !! t = Some (MoneyTransferCommand commands from to amount) ->
  called_with_success n commands m m' ->
  Command_Call (S n) c m = Ret tt m' /\ Command_Call (S n) t m = Ret tt m'.
Proof.
  intros Hc Ht Hall. split.
  - rewrite (Call_composite m c commands n Hc).
    by apply called_with_success_range.
  - rewrite (Call_transfer m t commands from to amount n Ht).
    rewrite <- (app_nil_r commands).
    rewrite (transfer_loop_prefix n commands [] m m' Hall). reflexivity.
Qed.

Lemma Transfer_Call_agrees_with_Composite_witness :
  Command_Call 2 2%nat (shared_slice_memory 1000 500 300 false false)
    = Ret tt (shared_slice_memory 700 800 300 true true) /\
  Command_Call 2 3%nat (shared_slice_memory 1000 500 300 false false)
    = Ret tt (shared_slice_memory 700 800 300 true true).
Proof.
  apply (Transfer_Call_agrees_with_Composite 1 [0%nat; 1%nat] 2%nat 3%nat
           0%nat 1%nat 300); [reflexivity | reflexivity |].
  apply (called_cons 1 0%nat [1%nat] _
           (shared_slice_memory 700 500 300 true false));
    [vm_compute; reflexivity | vm_compute; reflexivity |].
  apply (called_cons 1 1%nat [] _
           (shared_slice_memory 700 800 300 true true));
    [vm_compute; reflexivity | vm_compute; reflexivity |].
  apply called_nil.
Defined.

(* ------------------------------------------------------------------ *)
(** ** What every method preserves

    The only writes of the program are [account.balance = ...] and
    [c.succeeded = ...]; a relation that is reflexive, transitive and kept
    by these two writes is kept by every method of every command. *)

Section Preserved.
Variable P : Memory -> Memory -> Prop.
Hypothesis P_refl : forall m, P m m.
Hypothesis P_trans : forall m1 m2 m3, P m1 m2 -> P m2 m3 -> P m1 m3.
Hypothesis P_store_balance : forall account b, preserves P (store_balance account b).
Hypothesis P_store_succeeded : forall c v, preserves P (store_succeeded c v).

Lemma preserves_ret {A} (a : A) : preserves P (ret a).
Proof. intros m a' m' [= _ <-]. apply P_refl. Qed.

Lemma preserves_panic {A} : preserves P (@panic A).
Proof. intros m a m' H. discriminate H. Qed.

Lemma preserves_bind {A B} (c : M A) (k : A -> M B) :
  preserves P c -> (forall a, preserves P (k a)) -> preserves P (bind c k).
Proof.
  intros Hc Hk m b m' H. unfold bind in H.
  destruct (c m) as [a m1| |] eqn:E; try discriminate H.
  eapply P_trans; [eapply Hc, E | eapply Hk, H].
Qed.

Lemma preserves_load_balance (account : ptr) : preserves P (load_balance account).
Proof.
  intros m b m' H. unfold load_balance in H.
  destruct (accounts m !! account); [|discriminate H].
  injection H as _ <-. apply P_refl.
Qed.

Lemma preserves_load_object (c : ptr) : preserves P (load_object c).
Proof.
  intros m o m' H. unfold load_object in H.
  destruct (objects m !! c); [|discriminate H].
  injection H as _ <-. apply P_refl.
Qed.

Lemma preserves_load_commands (c : ptr) : preserves P (load_commands c).
Proof.
  apply preserves_bind; [apply preserves_load_object|].
  intros []; first [apply preserves_ret | apply preserves_panic].
Qed.

Lemma preserves_Withdraw (account : ptr) (amount : float) :
  preserves P (BankAccount_Withdraw account amount).
Proof.
  apply preserves_bind; [apply preserves_load_balance|]. intros b.
  destruct (b - amount <? overdraftLimit)%float; [apply preserves_ret|].
  apply preserves_bind; [apply preserves_load_balance|]. intros b'.
  apply preserves_bind; [apply P_store_balance|]. intros _. apply preserves_ret.
Qed.

Lemma preserves_Deposit (account : ptr) (amount : float) :
  preserves P (BankAccount_Deposit account amount).
Proof.
  apply preserves_bind; [apply preserves_load_balance|]. intros b.
  apply P_store_balance.
Qed.

Lemma preserves_leaf_Call (c : ptr) : preserves P (BankAccountCommand_Call c).
Proof.
  apply preserves_bind; [apply preserves_load_object|].
  intros [account action amount s| |]; try apply preserves_panic.
  destruct action as [|[]|]; try apply preserves_ret.
  - apply preserves_bind; [apply preserves_Deposit|]. intros _.
    apply P_store_succeeded.
  - apply preserves_bind; [apply preserves_Withdraw|]. intros ok.
    apply P_store_succeeded.
Qed.

Lemma preserves_leaf_Undo (c : ptr) : preserves P (BankAccountCommand_Undo c).
Proof.
  apply preserves_bind; [apply preserves_load_object|].
  intros [account action amount s| |]; try apply preserves_panic.
  destruct (negb s); [apply preserves_ret|].
  destruct action as [|[]|]; try apply preserves_ret.
  - apply preserves_bind; [apply preserves_Withdraw|]. intros _.
    apply preserves_ret.
  - apply preserves_Deposit.
Qed.

Lemma preserves_leaf_Succeeded (c : ptr) :
  preserves P (BankAccountCommand_Succeeded c).
Proof.
  apply preserves_bind; [apply preserves_load_object|].
  intros []; first [apply preserves_ret | apply preserves_panic].
Qed.

Lemma preserves_range (body : ptr -> M unit) (commands : list ptr) :
  (forall cmd, preserves P (body cmd)) -> preserves P (range commands body).
Proof.
  intros Hb. induction commands as [|cmd rest IH]; simpl.
  - apply preserves_ret.
  - apply preserves_bind; [apply Hb | intros _; apply IH].
Qed.

Lemma preserves_undo_down (Undo : ptr -> M unit) (commands : list ptr) (i : nat) :
  (forall cmd, preserves P (Undo cmd)) ->
  preserves P (undo_down Undo i commands).
Proof.
  intros Hu. induction i as [|i IH]; simpl.
  - apply preserves_ret.
  - destruct (commands !! i); [|apply preserves_panic].
    apply preserves_bind; [apply Hu | intros _; apply IH].
Qed.

Lemma preserves_all_succeeded (Succeeded : ptr -> M bool) (commands : list ptr) :
  (forall cmd, preserves P (Succeeded cmd)) ->
  preserves P (all_succeeded Succeeded commands).
Proof.
  intros Hs. induction commands as [|cmd rest IH]; simpl.
  - apply preserves_ret.
  - apply preserves_bind; [apply Hs|].
    intros []; simpl; [apply IH | apply preserves_ret].
Qed.

Lemma preserves_transfer_loop (Call : ptr -> M unit) (Succeeded : ptr -> M bool)
    (SetSucceeded : ptr -> bool -> M unit) (commands : list ptr) (b : bool) :
  (forall cmd, preserves P (Call cmd)) ->
  (forall cmd, preserves P (Succeeded cmd)) ->
  (forall cmd v, preserves P (SetSucceeded cmd v)) ->
  preserves P (transfer_loop Call Succeeded SetSucceeded b commands).
Proof.
  intros Hc Hs Ht. revert b.
  induction commands as [|cmd rest IH]; intros b; simpl.
  - apply preserves_ret.
  - destruct b.
    + apply preserves_bind; [apply Hc|]. intros _.
      apply preserves_bind; [apply Hs|]. intros ok. apply IH.
    + apply preserves_bind; [apply Ht|]. intros _. apply IH.
Qed.

(** Reads the dispatch of one interface method, down to its loop. *)
Ltac preserved_through_dispatch leaf_lemma loop_lemma :=
  cbn [Command_Call Command_Undo Command_Succeeded Command_SetSucceeded];
  apply preserves_bind; [apply preserves_load_object|]; intros [];
  try leaf_lemma;
  unfold CompositeBankAccountCommand_Call, CompositeBankAccountCommand_Undo,
    CompositeBankAccountCommand_Succeeded,
    CompositeBankAccountCommand_SetSucceeded, MoneyTransferCommand_Call;
  (apply preserves_bind; [apply preserves_load_commands|]); intros l;
  loop_lemma.

Lemma preserves_Succeeded (fuel : nat) (c : ptr) :
  preserves P (Command_Succeeded fuel c).
Proof.
  revert c. induction fuel as [|fuel IH]; intros c.
  - intros m a m' H. discriminate H.
  - preserved_through_dispatch ltac:(apply preserves_leaf_Succeeded)
      ltac:(by apply preserves_all_succeeded).
Qed.

Lemma preserves_SetSucceeded (fuel : nat) (c : ptr) (value : bool) :
  preserves P (Command_SetSucceeded fuel c value).
Proof.
  revert c. induction fuel as [|fuel IH]; intros c.
  - intros m a m' H. discriminate H.
  - preserved_through_dispatch ltac:(apply P_store_succeeded)
      ltac:(apply preserves_range; intros cmd; apply IH).
Qed.

Lemma preserves_Undo (fuel : nat) (c : ptr) :
  preserves P (Command_Undo fuel c).
Proof.
  revert c. induction fuel as [|fuel IH]; intros c.
  - intros m a m' H. discriminate H.
  - preserved_through_dispatch ltac:(apply preserves_leaf_Undo)
      ltac:(by apply preserves_undo_down).
Qed.

Lemma preserves_Call (fuel : nat) (c : ptr) :
  preserves P (Command_Call fuel c).
Proof.
  revert c. induction fuel as [|fuel IH]; intros c.
  - intros m a m' H. discriminate H.
  - preserved_through_dispatch ltac:(apply preserves_leaf_Call)
      ltac:(first [ by apply preserves_range
                  | apply preserves_transfer_loop;
                    [ apply IH | apply preserves_Succeeded
                    | intros cmd v; apply preserves_SetSucceeded ] ]).
Qed.
End Preserved.

Lemma keeps_shape_refl (m : Memory) : keeps_shape m m.
Proof. split; reflexivity. Qed.

Lemma keeps_shape_trans (m1 m2 m3 : Memory) :
  keeps_shape m1 m2 -> keeps_shape m2 m3 -> keeps_shape m1 m3.
Proof. intros [H1 H2] [H3 H4]. split; congruence. Qed.

Lemma keeps_shape_store_balance (account : ptr) (b : float) :
  preserves keeps_shape (store_balance account b).
Proof.
  intros m [] m' H. unfold store_balance in H.
  destruct (accounts m !! account) as [a|] eqn:E; [|discriminate H].
  injection H as <-. split; [|reflexivity]. simpl.
  rewrite dom_insert_L. apply (elem_of_dom_2 (accounts m)) in E.
  apply subseteq_union_1_L. by apply singleton_subseteq_l.
Qed.

Lemma keeps_shape_store_succeeded (c : ptr) (value : bool) :
  preserves keeps_shape (store_succeeded c value).
Proof.
  intros m [] m' H. unfold store_succeeded in H.
  destruct (objects m !! c) as [[account action amount s| |]|] eqn:E;
    try discriminate H.
  injection H as <-. split; [reflexivity|].
  by eapply flags_only_store.
Qed.

(** X3: no method ever rewires the program's data.  Whatever the command
    and however deep its members nest, a [Call] or an [Undo] that returns
    leaves the same accounts and the same command objects in place: only
    balances and [succeeded] flags can have changed, never the account,
    action, amount or slice of a command. *)
Theorem Call_Undo_keep_shape (fuel : nat) (c : ptr) (m m' : Memory) :
  Command_Call fuel c m = Ret tt m' \/ Command_Undo fuel c m = Ret tt m' ->
  dom (accounts m') = dom (accounts m) /\
  forget_flag <$> objects m' = forget_flag <$> objects m.
Proof.
  intros [H | H]; revert H.
  - apply (preserves_Call keeps_shape keeps_shape_refl keeps_shape_trans
             keeps_shape_store_balance keeps_shape_store_succeeded).
  - apply (preserves_Undo keeps_shape keeps_shape_refl keeps_shape_trans
             keeps_shape_store_balance).
Qed.

Lemma Call_Undo_keep_shape_witness :
  dom (accounts (transfer_memory 700 800 300 true true))
    = dom (accounts (transfer_memory 1000 500 300 false false)) /\
  forget_flag <$> objects (transfer_memory 700 800 300 true true)
    = forget_flag <$> objects (transfer_memory 1000 500 300 false false).
Proof.
  apply (Call_Undo_keep_shape 2 2%nat
           (transfer_memory 1000 500 300 false false)
           (transfer_memory 700 800 300 true true)).
  left. vm_compute. reflexivity.
Defined.

(* ------------------------------------------------------------------ *)
(** ** More on transfers *)

(** X4: when the withdrawal of a transfer is rejected, [Undo] right after
    the [Call] changes nothing, whatever the two flags were before the
    [Call].  In particular a transfer that had succeeded once and is
    called again without enough funds does not take the earlier deposit
    back: the failed [Call] has set the flag of the deposit leg to
    false. *)
Theorem Transfer_failed_Call_then_Undo (m : Memory) (t w d from to : ptr)
    (amount F : float) (sw sd : bool) (n : nat) :
  is_transfer m t w d from to amount sw sd ->
  accounts m !! from = Some (mkBankAccount F) ->
  (F - amount <? overdraftLimit)%float = true ->
  exists m1,
    Command_Call (S (S n)) t m = Ret tt m1 /\
    accounts m1 = accounts m /\
    Command_Undo (S (S n)) t m1 = Ret tt m1.
Proof.
  intros Hshape HF Hlt. eexists. split.
  { apply (Transfer_Call_rejected m t w d from to amount n sw sd F
             Hshape HF Hlt). }
  split; [reflexivity|].
  assert (is_transfer
            (with_object d (BankAccountCommand to Deposit amount false)
               (with_object w (BankAccountCommand from Withdraw amount false) m))
            t w d from to amount false false) as Hshape1.
  { apply is_transfer_set_d with (sd := sd).
    apply is_transfer_set_w with (sw := sw). exact Hshape. }
  rewrite (Transfer_Undo_order _ t w d from to amount n false false Hshape1).
  destruct Hshape1 as (_ & Hw & Hd). unfold bind.
  rewrite (Undo_not_succeeded _ d to amount n Deposit Hd).
  rewrite (Undo_not_succeeded _ w from amount n Withdraw Hw).
  reflexivity.
Qed.

Lemma Transfer_failed_Call_then_Undo_witness :
  exists m1,
    Command_Call 2 2%nat (transfer_memory 700 800 2000 true true) = Ret tt m1 /\
    accounts m1 = accounts (transfer_memory 700 800 2000 true true) /\
    Command_Undo 2 2%nat m1 = Ret tt m1.
Proof.
  apply (Transfer_failed_Call_then_Undo (transfer_memory 700 800 2000 true true)
           2%nat 0%nat 1%nat 0%nat 1%nat 2000 700 true true 0).
  - repeat split; reflexivity.
  - reflexivity.
  - reflexivity.
Defined.

(** A leaf command writes to no account but its own, and to no command
    object but itself. *)
Lemma leaf_Call_frame (m m' : Memory) (c account : ptr) (action : Action)
    (amount : float) (s : bool) (n : nat) :
  objects m !! c = Some (BankAccountCommand account action amount s) ->
  Command_Call (S n) c m = Ret tt m' ->
  (forall p, p <> account -> accounts m' !! p = accounts m !! p) /\
  (forall p, p <> c -> objects m' !! p = objects m !! p) /\
  exists s', objects m' !! c = Some (BankAccountCommand account action amount s').
Proof.
  intros H Hcall. revert Hcall. enter H.
  destruct (accounts m !! account) as [[B]|] eqn:HB.
  - destruct action as [|[]|]; cbv beta iota.
    + rewrite (Deposit_eq m account amount B HB). simpl. rewrite H.
      intros [= <-]. split; [|split].
      * intros p Hp. simpl. by rewrite lookup_insert_ne.
      * intros p Hp. simpl. by rewrite lookup_insert_ne.
      * eexists. apply with_object_lookup.
    + intros [= <-]. eauto.
    + intros [= <-]. eauto.
    + rewrite (Withdraw_eq m account amount B HB).
      destruct (B - amount <? overdraftLimit)%float; simpl; rewrite H;
        intros [= <-]; (split; [|split]).
      * done.
      * intros p Hp. simpl. by rewrite lookup_insert_ne.
      * eexists. apply with_object_lookup.
      * intros p Hp. simpl. by rewrite lookup_insert_ne.
      * intros p Hp. simpl. by rewrite lookup_insert_ne.
      * eexists. apply with_object_lookup.
    + intros [= <-]. eauto.
  - destruct action as [|[]|]; cbv beta iota.
    + by rewrite (Deposit_nil m account amount HB).
    + intros [= <-]. eauto.
    + intros [= <-]. eauto.
    + by rewrite (Withdraw_nil m account amount HB).
    + intros [= <-]. eauto.
Qed.

Lemma leaf_Undo_frame (m m' : Memory) (c account : ptr) (action : Action)
    (amount : float) (s : bool) (n : nat) :
  objects m !! c = Some (BankAccountCommand account action amount s) ->
  Command_Undo (S n) c m = Ret tt m' ->
  (forall p, p <> account -> accounts m' !! p = accounts m !! p) /\
  objects m' = objects m.
Proof.
  intros H Hundo. revert Hundo. enter H.
  destruct s; cbn [negb]; [|intros [= <-]; done].
  destruct (accounts m !! account) as [[B]|] eqn:HB.
  - destruct action as [|[]|]; cbv beta iota; try (intros [= <-]; done).
    + rewrite (Withdraw_eq m account amount B HB).
      destruct (B - amount <? overdraftLimit)%float; intros [= <-]; [done|].
      split; [|done]. intros p Hp. simpl. by rewrite lookup_insert_ne.
    + rewrite (Deposit_eq m account amount B HB). intros [= <-].
      split; [|done]. intros p Hp. simpl. by rewrite lookup_insert_ne.
  - destruct action as [|[]|]; cbv beta iota; try (intros [= <-]; done).
    + by rewrite (Withdraw_nil m account amount HB).
    + by rewrite (Deposit_nil m account amount HB).
Qed.

(** X5: a transfer touches nothing but its two accounts and its two leaf
    commands.  Whenever [Call] or [Undo] on a transfer returns, on either
    path, every account other than [from] and [to] holds what it held,
    and every command object other than the two legs is as it was. *)
Theorem Transfer_frame (m m' : Memory) (t w d from to : ptr) (amount : float)
    (sw sd : bool) (n : nat) :
  is_transfer m t w d from to amount sw sd ->
  Command_Call (S (S n)) t m = Ret tt m' \/
  Command_Undo (S (S n)) t m = Ret tt m' ->
  (forall p, p <> from -> p <> to -> accounts m' !! p = accounts m !! p) /\
  (forall p, p <> w -> p <> d -> objects m' !! p = objects m !! p).
Proof.
  intros Hshape Hrun.
  destruct (is_transfer_distinct _ _ _ _ _ _ _ _ _ Hshape) as (Hwd & _ & _).
  destruct Hrun as [Hcall | Hundo].
  - destruct Hshape as (Ht & Hw & Hd).
    rewrite (Call_transfer m t [w; d] from to amount (S n) Ht) in Hcall.
    cbn [transfer_loop] in Hcall. unfold bind in Hcall.
    destruct (Command_Call (S n) w m) as [[] m1| |] eqn:E1;
      try discriminate Hcall.
    destruct (leaf_Call_frame m m1 w from Withdraw amount sw n Hw E1)
      as (Hacc1 & Hobj1 & s' & Hw1).
    assert (objects m1 !! d = Some (BankAccountCommand to Deposit amount sd))
      as Hd1 by (by rewrite Hobj1).
    rewrite (Succeeded_leaf m1 w from amount n Withdraw s' Hw1) in Hcall.
    destruct s'.
    + destruct (Command_Call (S n) d m1) as [[] m2| |] eqn:E2;
        try discriminate Hcall.
      destruct (leaf_Call_frame m1 m2 d to Deposit amount sd n Hd1 E2)
        as (Hacc2 & Hobj2 & s'' & Hd2).
      rewrite (Succeeded_leaf m2 d to amount n Deposit s'' Hd2) in Hcall.
      injection Hcall as <-. split.
      * intros p Hpf Hpt. by rewrite Hacc2, Hacc1.
      * intros p Hpw Hpd. by rewrite Hobj2, Hobj1.
    + rewrite (SetSucceeded_leaf m1 d to amount n Deposit sd false Hd1) in Hcall.
      injection Hcall as <-. split.
      * intros p Hpf Hpt. simpl. by apply Hacc1.
      * intros p Hpw Hpd. simpl. rewrite lookup_insert_ne by done.
        by apply Hobj1.
  - rewrite (Transfer_Undo_order m t w d from to amount n sw sd Hshape) in Hundo.
    destruct Hshape as (Ht & Hw & Hd). unfold bind in Hundo.
    destruct (Command_Undo (S n) d m) as [[] m1| |] eqn:E1;
      try discriminate Hundo.
    destruct (leaf_Undo_frame m m1 d to Deposit amount sd n Hd E1)
      as (Hacc1 & Hobj1).
    rewrite <- Hobj1 in Hw.
    destruct (Command_Undo (S n) w m1) as [[] m2| |] eqn:E2;
      try discriminate Hundo.
    destruct (leaf_Undo_frame m1 m2 w from Withdraw amount sw n Hw E2)
      as (Hacc2 & Hobj2).
    injection Hundo as <-. split.
    + intros p Hpf Hpt. by rewrite Hacc2, Hacc1.
    + intros p _ _. by rewrite Hobj2, Hobj1.
Qed.

Lemma Transfer_frame_witness :
  (forall p, p <> 0%nat -> p <> 1%nat ->
     accounts (transfer_memory 700 800 300 true true) !! p
     = accounts (transfer_memory 1000 500 300 false false) !! p) /\
  (forall p, p <> 0%nat -> p <> 1%nat ->
     objects (transfer_memory 700 800 300 true true) !! p
     = objects (transfer_memory 1000 500 300 false false) !! p).
Proof.
  apply (Transfer_frame (transfer_memory 1000 500 300 false false)
           (transfer_memory 700 800 300 true true)
           2%nat 0%nat 1%nat 0%nat 1%nat 300 false false 0).
  - repeat split; reflexivity.
  - left. vm_compute. reflexivity.
Defined.

(** X6: the constructor accepts any two pointers, and a transfer over a
    nil account panics only when that account is dereferenced: [Call]
    panics when [from] is nil; with a nil [to] it panics exactly when the
    withdrawal is accepted, and returns, changing no balance, when the
    withdrawal is rejected. *)
Theorem Transfer_Call_nil (m : Memory) (t w d from to : ptr) (amount : float)
    (sw sd : bool) (n : nat) :
  is_transfer m t w d from to amount sw sd ->
  (accounts m !! from = None -> Command_Call (S (S n)) t m = Panic) /\
  (forall F, accounts m !! from = Some (mkBankAccount F) ->
     accounts m !! to = None ->
     if (F - amount <? overdraftLimit)%float
     then exists m', Command_Call (S (S n)) t m = Ret tt m' /\
                     accounts m' = accounts m
     else Command_Call (S (S n)) t m = Panic).
Proof.
  intros Hshape. split.
  - intros Hnil. destruct Hshape as (Ht & Hw & Hd).
    rewrite (Call_transfer m t [w; d] from to amount (S n) Ht).
    cbn [transfer_loop]. unfold bind. enter Hw.
    by rewrite (Withdraw_nil m from amount Hnil).
  - intros F HF Hnil.
    destruct (F - amount <? overdraftLimit)%float eqn:Hlt.
    + eexists. split.
      * apply (Transfer_Call_rejected m t w d from to amount n sw sd F
                 Hshape HF Hlt).
      * reflexivity.
    + pose proof (is_transfer_set_w _ _ _ _ _ _ _ _ _ true
                    (is_transfer_with_balance _ _ _ _ _ _ _ _ _ from
                       (F - amount) Hshape)) as (_ & Hw1 & Hd1).
      destruct Hshape as (Ht & Hw & Hd).
      rewrite (Call_transfer m t [w; d] from to amount (S n) Ht).
      cbn [transfer_loop]. unfold bind.
      rewrite (Call_Withdraw m w from amount n sw F Hw HF), Hlt.
      rewrite (Succeeded_leaf _ w from amount n Withdraw true Hw1).
      enter Hd1.
      rewrite Deposit_nil; [reflexivity|].
      simpl. rewrite lookup_insert_ne; [exact Hnil|].
      intros ->. congruence.
Qed.

Lemma Transfer_Call_nil_witness :
  Command_Call 2 2%nat
    (mkMemory {[ 0%nat := mkBankAccount 1000 ]}
       (objects (transfer_memory 1000 500 300 false false)))
  = Panic.
Proof.
  apply (proj2 (Transfer_Call_nil
                  (mkMemory {[ 0%nat := mkBankAccount 1000 ]}
                     (objects (transfer_memory 1000 500 300 false false)))
                  2%nat 0%nat 1%nat 0%nat 1%nat 300 false false 0
                  ltac:(repeat split; reflexivity))
          1000%float ltac:(reflexivity) ltac:(reflexivity)).
Defined.

(** X7: a transfer from an account to itself.  When the withdrawal is
    accepted, the deposit lands on what the withdrawal left, so the
    account ends at [(F - amount) + amount] and [Succeeded] returns
    true; no other account changes. *)
Theorem Transfer_to_self (m : Memory) (t w d account : ptr) (amount F : float)
    (sw sd : bool) (n : nat) :
  is_transfer m t w d account account amount sw sd ->
  accounts m !! account = Some (mkBankAccount F) ->
  (F - amount <? overdraftLimit)%float = false ->
  exists m',
    Command_Call (S (S n)) t m = Ret tt m' /\
    accounts m' = <[account := mkBankAccount (F - amount + amount)]> (accounts m) /\
    Command_Succeeded (S (S n)) t m' = Ret true m'.
Proof.
  intros Hshape HF Hok. eexists. split.
  { apply (Transfer_Call_accepted m t w d account account amount n sw sd F
             (F - amount) Hshape HF Hok). apply with_balance_lookup. }
  split.
  { simpl. apply insert_insert_eq. }
  apply (Transfer_Succeeded _ t w d account account amount n true true).
  apply is_transfer_set_d with (sd := sd).
  apply (is_transfer_with_balance _ t w d account account).
  apply is_transfer_set_w with (sw := sw).
  apply (is_transfer_with_balance _ t w d account account). exact Hshape.
Qed.

Lemma Transfer_to_self_witness :
  exists m',
    Command_Call 2 2%nat (self_transfer_memory 1000 300 false false) = Ret tt m' /\
    accounts m' = <[0%nat := mkBankAccount (1000 - 300 + 300)]>
                    (accounts (self_transfer_memory 1000 300 false false)) /\
    Command_Succeeded 2 2%nat m' = Ret true m'.
Proof.
  apply (Transfer_to_self (self_transfer_memory 1000 300 false false)
           2%nat 0%nat 1%nat 0%nat 300 1000 false false 0).
  - repeat split; reflexivity.
  - reflexivity.
  - reflexivity.
Defined.

(* ------------------------------------------------------------------ *)
(** ** Composites that hold themselves *)

(** X8: nothing keeps a slice from holding the composite that owns it,
    and no method guards against it.  On a composite, or a transfer,
    whose first member is itself, [Call], [Succeeded] and [SetSucceeded]
    never return, and neither does [Undo] when the last member is the
    composite itself: no depth of nested calls is enough, which in Go
    ends in a stack overflow. *)
Theorem self_member_never_returns (m : Memory) (c : ptr) (rest : list ptr)
    (value : bool) (fuel : nat) :
  (objects m !! c = Some (CompositeBankAccountCommand (c :: rest)) \/
   (exists from to amount,
      objects m !! c = Some (MoneyTransferCommand (c :: rest) from to amount)) ->
   Command_Call fuel c m = OutOfFuel /\
   Command_Succeeded fuel c m = OutOfFuel /\
   Command_SetSucceeded fuel c value m = OutOfFuel)
  /\ (objects m !! c = Some (CompositeBankAccountCommand (rest ++ [c])) \/
      (exists from to amount,
         objects m !! c
           = Some (MoneyTransferCommand (rest ++ [c]) from to amount)) ->
      Command_Undo fuel c m = OutOfFuel).
Proof.
  split.
  - intros H. induction fuel as [|fuel (IHc & IHs & IHv)]; [done|].
    destruct H as [H | (from & to & amount & H)]; enter H;
      cbn [range all_succeeded transfer_loop]; unfold bind;
      by rewrite ?IHc, ?IHs, ?IHv.
  - intros H. induction fuel as [|fuel IH]; [done|].
    destruct H as [H | (from & to & amount & H)]; enter H;
      rewrite length_app, Nat.add_1_r; cbn [undo_down];
      rewrite (list_lookup_middle rest [] c (length rest) eq_refl);
      unfold bind; by rewrite IH.
Qed.

Lemma self_member_never_returns_witness :
  Command_Call 5 0%nat self_composite_memory = OutOfFuel /\
  Command_Succeeded 5 0%nat self_composite_memory = OutOfFuel /\
  Command_SetSucceeded 5 0%nat true self_composite_memory = OutOfFuel.
Proof.
  apply (proj1 (self_member_never_returns self_composite_memory 0%nat []
                  true 5)).
  left. reflexivity.
Defined.

(* ------------------------------------------------------------------ *)
(** ** SetSucceeded, then Succeeded *)

Lemma raised_refl (m : Memory) : raised m m.
Proof. intros p. by left. Qed.

Lemma raised_trans (m1 m2 m3 : Memory) :
  raised m1 m2 -> raised m2 m3 -> raised m1 m3.
Proof.
  intros H12 H23 p.
  destruct (H12 p) as [E12 | (a & act & amt & s & E1 & E2)],
           (H23 p) as [E23 | (a' & act' & amt' & s' & E2' & E3)].
  - left. congruence.
  - right. exists a', act', amt', s'. split; congruence.
  - right. exists a, act, amt, s. split; congruence.
  - right. exists a, act, amt, s. split; congruence.
Qed.

Lemma raised_store_true (c : ptr) : preserves raised (store_succeeded c true).
Proof.
  intros m [] m' H. unfold store_succeeded in H.
  destruct (objects m !! c) as [[account action amount s| |]|] eqn:E;
    try discriminate H.
  injection H as <-. intros p. destruct (decide (p = c)) as [->|Hp].
  - right. exists account, action, amount, s.
    split; [exact E | apply with_object_lookup].
  - left. by apply with_object_lookup_ne.
Qed.

Lemma SetSucceeded_true_raised (fuel : nat) (c : ptr) :
  preserves raised (Command_SetSucceeded fuel c true).
Proof.
  revert c. induction fuel as [|fuel IH]; intros c.
  - intros m a m' H. discriminate H.
  - cbn [Command_SetSucceeded].
    apply (preserves_bind raised raised_trans);
      [apply (preserves_load_object raised raised_refl)|].
    intros []; try apply raised_store_true;
      unfold CompositeBankAccountCommand_SetSucceeded;
      (apply (preserves_bind raised raised_trans);
       [apply (preserves_load_commands raised raised_refl raised_trans)|]);
      intros l;
      apply (preserves_range raised raised_refl raised_trans);
      intros cmd; apply IH.
Qed.

(** An answer of true survives the raising of flags. *)
Lemma Succeeded_true_raised (fuel : nat) (c : ptr) (m m' : Memory) :
  raised m m' ->
  Command_Succeeded fuel c m = Ret true m ->
  Command_Succeeded fuel c m' = Ret true m'.
Proof.
  intros Hr. revert c. induction fuel as [|fuel IH]; intros c H.
  - discriminate H.
  - destruct (objects m !! c)
      as [[account action amount s|l|l from to amount]|] eqn:Hc.
    + rewrite (Succeeded_leaf m c account amount fuel action s Hc) in H.
      injection H as ->.
      destruct (Hr c) as [E | (a & act & amt & s & E1 & E2)].
      * rewrite Hc in E.
        by rewrite (Succeeded_leaf m' c account amount fuel action true E).
      * by rewrite (Succeeded_leaf m' c a amt fuel act true E2).
    + destruct (Hr c) as [E | (a & act & amt & s & E1 & E2)]; [|congruence].
      rewrite Hc in E.
      rewrite (Succeeded_composite m c l fuel Hc) in H.
      rewrite (Succeeded_composite m' c l fuel E).
      apply all_succeeded_true; [intros cmd; apply Succeeded_read_only|].
      intros cmd Hin. apply IH. revert cmd Hin.
      apply all_succeeded_true; [intros cmd; apply Succeeded_read_only|].
      exact H.
    + destruct (Hr c) as [E | (a & act & amt & s & E1 & E2)]; [|congruence].
      rewrite Hc in E.
      rewrite (Succeeded_transfer m c l from to amount fuel Hc) in H.
      rewrite (Succeeded_transfer m' c l from to amount fuel E).
      apply all_succeeded_true; [intros cmd; apply Succeeded_read_only|].
      intros cmd Hin. apply IH. revert cmd Hin.
      apply all_succeeded_true; [intros cmd; apply Succeeded_read_only|].
      exact H.
    + simpl in H. unfold bind, load_object in H. rewrite Hc in H.
      discriminate H.
Qed.

(** X9: [SetSucceeded(true)] does what its name says on every command:
    when it returns, [Succeeded] returns true, however the members nest
    and even when one leaf command sits in several slices. *)
Theorem SetSucceeded_true_then_Succeeded (fuel : nat) (c : ptr)
    (m m' : Memory) :
  Command_SetSucceeded fuel c true m = Ret tt m' ->
  Command_Succeeded fuel c m' = Ret true m'.
Proof.
  revert c m m'. induction fuel as [|fuel IH]; intros c m m' H.
  - discriminate H.
  - assert (forall l m1 m2,
              range l (fun cmd => Command_SetSucceeded fuel cmd true) m1
                = Ret tt m2 ->
              forall cmd, cmd ∈ l ->
                Command_Succeeded fuel cmd m2 = Ret true m2) as Hloop.
    { induction l as [|x l IHl]; intros m1 m2 Hl cmd Hin.
      - by apply elem_of_nil in Hin.
      - simpl in Hl. unfold bind in Hl.
        destruct (Command_SetSucceeded fuel x true m1) as [[] m1'| |] eqn:Ex;
          try discriminate Hl.
        apply elem_of_cons in Hin as [-> | Hin].
        + apply (Succeeded_true_raised fuel x m1' m2).
          * revert Hl.
            apply (preserves_range raised raised_refl raised_trans).
            intros cmd. apply SetSucceeded_true_raised.
          * by apply IH in Ex.
        + by apply (IHl m1' m2). }
    pose proof (SetSucceeded_true_raised (S fuel) c m tt m' H) as Hr.
    destruct (objects m !! c)
      as [[account action amount s|l|l from to amount]|] eqn:Hc.
    + rewrite (SetSucceeded_leaf m c account amount fuel action s true Hc) in H.
      injection H as <-.
      apply (Succeeded_leaf _ c account amount fuel action true).
      apply with_object_lookup.
    + destruct (Hr c) as [E | (a & act & amt & s & E1 & E2)]; [|congruence].
      rewrite Hc in E. rewrite (Succeeded_composite m' c l fuel E).
      apply all_succeeded_true; [intros cmd; apply Succeeded_read_only|].
      apply (Hloop l m m'). revert H. by enter Hc.
    + destruct (Hr c) as [E | (a & act & amt & s & E1 & E2)]; [|congruence].
      rewrite Hc in E. rewrite (Succeeded_transfer m' c l from to amount fuel E).
      apply all_succeeded_true; [intros cmd; apply Succeeded_read_only|].
      apply (Hloop l m m'). revert H. by enter Hc.
    + simpl in H. unfold bind, load_object in H. rewrite Hc in H.
      discriminate H.
Qed.

Lemma SetSucceeded_true_then_Succeeded_witness :
  Command_Succeeded 2 2%nat (transfer_memory 1000 500 300 true true)
  = Ret true (transfer_memory 1000 500 300 true true).
Proof.
  apply (SetSucceeded_true_then_Succeeded 2 2%nat
           (transfer_memory 1000 500 300 false false)).
  vm_compute. reflexivity.
Defined.

(* ------------------------------------------------------------------ *)
(** ** The constructor *)

(** X10: [NewMoneyTransferCommand] only allocates.  For any two pointers,
    nil included, it returns a pointer that was not in use, leaves every
    account and every command object that existed as it was, and runs
    nothing: the new transfer reports [Succeeded() == false], as a
    transfer that failed would, and its [Undo] changes nothing. *)
Theorem NewMoneyTransferCommand_allocates (from to : ptr) (amount : float)
    (m : Memory) :
  exists t m1,
    NewMoneyTransferCommand from to amount m = Ret t m1 /\
    accounts m1 = accounts m /\
    objects m !! t = None /\
    (forall p o, objects m !! p = Some o -> objects m1 !! p = Some o) /\
    Command_Succeeded 2 t m1 = Ret false m1 /\
    Command_Undo 2 t m1 = Ret tt m1.
Proof.
  set (w := fresh (dom (objects m))).
  set (m_w := with_object w (BankAccountCommand from Withdraw amount false) m).
  set (d := fresh (dom (objects m_w))).
  set (m_d := with_object d (BankAccountCommand to Deposit amount false) m_w).
  set (t := fresh (dom (objects m_d))).
  set (m1 := with_object t (MoneyTransferCommand [w; d] from to amount) m_d).
  assert (w ∉ dom (objects m)) as Hw by apply is_fresh.
  assert (d ∉ dom (objects m_w)) as Hd by apply is_fresh.
  assert (t ∉ dom (objects m_d)) as Ht by apply is_fresh.
  unfold m_d, m_w, with_object in Hd, Ht. simpl in Hd, Ht.
  rewrite !dom_insert_L in Ht. rewrite dom_insert_L in Hd.
  assert (d <> w) as Hdw by set_solver.
  assert (t <> w) as Htw by set_solver.
  assert (t <> d) as Htd by set_solver.
  assert (is_transfer m1 t w d from to amount false false) as Hshape.
  { unfold is_transfer, m1, m_d, m_w, with_object. simpl. repeat split.
    - apply lookup_insert_eq.
    - rewrite lookup_insert_ne by done. rewrite lookup_insert_ne by done.
      apply lookup_insert_eq.
    - rewrite lookup_insert_ne by done. apply lookup_insert_eq. }
  exists t, m1. split; [reflexivity|]. split; [reflexivity|]. split.
  { apply not_elem_of_dom. set_solver. }
  split.
  { intros p o Hp. apply (elem_of_dom_2 (objects m)) in Hp as Hin.
    unfold m1, m_d, m_w, with_object. simpl.
    rewrite !lookup_insert_ne; [exact Hp | | |]; intros <-; set_solver. }
  split.
  { apply (Transfer_Succeeded m1 t w d from to amount 0 false false Hshape). }
  rewrite (Transfer_Undo_order m1 t w d from to amount 0 false false Hshape).
  destruct Hshape as (_ & Hw1 & Hd1). unfold bind.
  rewrite (Undo_not_succeeded m1 d to amount 0 Deposit Hd1).
  rewrite (Undo_not_succeeded m1 w from amount 0 Withdraw Hw1).
  reflexivity.
Qed.

(* ------------------------------------------------------------------ *)
(** ** More on leaf commands *)

(** X11: [Action] is an [int], and the two [switch] statements have no
    [default]: on a leaf command whose action is neither [Deposit] nor
    [Withdraw], [Call] and [Undo] return without reading the account or
    writing anything, so the flag keeps the value it had. *)
Theorem unknown_action_does_nothing (m : Memory) (c account : ptr)
    (action : Action) (amount : float) (s : bool) (n : nat) :
  action <> Deposit -> action <> Withdraw ->
  objects m !! c = Some (BankAccountCommand account action amount s) ->
  Command_Call (S n) c m = Ret tt m /\ Command_Undo (S n) c m = Ret tt m.
Proof.
  intros HnD HnW H. unfold Deposit, Withdraw in HnD, HnW.
  split; enter H.
  - destruct action as [|[]|]; done.
  - destruct s; [|done]. destruct action as [|[]|]; done.
Qed.

Lemma unknown_action_does_nothing_witness :
  Command_Call 1 0%nat (one_leaf 1000 7 200) = Ret tt (one_leaf 1000 7 200) /\
  Command_Undo 1 0%nat (one_leaf 1000 7 200) = Ret tt (one_leaf 1000 7 200).
Proof.
  apply (unknown_action_does_nothing (one_leaf 1000 7 200) 0%nat 0%nat 7 200
           false 0); [discriminate | discriminate | reflexivity].
Defined.

(** X12: [Undo] never writes to a command object, so it never resets
    [succeeded], whatever the command; a second [Undo] therefore undoes
    again.  After a successful withdrawal from [B], two calls of [Undo]
    leave [(B + amount) + amount], where [B] was the balance left by the
    withdrawal. *)
Theorem Undo_never_resets_flag :
  (forall (fuel : nat) (c : ptr) (m m' : Memory),
     Command_Undo fuel c m = Ret tt m' -> objects m' = objects m)
  /\ (forall (m : Memory) (c account : ptr) (amount B : float) (n : nat),
        objects m !! c = Some (BankAccountCommand account Withdraw amount true) ->
        accounts m !! account = Some (mkBankAccount B) ->
        (Command_Undo (S n) c ;; Command_Undo (S n) c) m
        = Ret tt (with_balance account (B + amount + amount) m)).
Proof.
  split.
  - intros fuel c m m'.
    apply (preserves_Undo (fun m m' => objects m' = objects m)).
    + reflexivity.
    + intros m1 m2 m3 H12 H23. congruence.
    + intros account b m1 [] m2 H. unfold store_balance in H.
      destruct (accounts m1 !! account); [|discriminate H].
      by injection H as <-.
  - intros m c account amount B n Hc HB. unfold bind.
    rewrite (Undo_Withdraw m c account amount n B Hc HB).
    rewrite (Undo_Withdraw (with_balance account (B + amount) m) c account
               amount n (B + amount) Hc (with_balance_lookup _ _ _)).
    by rewrite with_balance_twice.
Qed.

Lemma Undo_never_resets_flag_witness :
  (Command_Undo 1 0%nat ;; Command_Undo 1 0%nat)
    (with_object 0%nat (BankAccountCommand 0%nat Withdraw 200 true)
       (one_leaf 800 Withdraw 200))
  = Ret tt (with_balance 0%nat (800 + 200 + 200)
              (with_object 0%nat (BankAccountCommand 0%nat Withdraw 200 true)
                 (one_leaf 800 Withdraw 200))).
Proof.
  apply (proj2 Undo_never_resets_flag
           (with_object 0%nat (BankAccountCommand 0%nat Withdraw 200 true)
              (one_leaf 800 Withdraw 200))
           0%nat 0%nat 200%float 800%float 0%nat); reflexivity.
Defined.

(* ------------------------------------------------------------------ *)
(** ** Amounts of either sign *)

(** In IEEE 754 arithmetic, subtracting [-y] is adding [y], and adding
    [-y] is subtracting [y], bit for bit. *)
Lemma SFsub_opp (prec emax : Z) (x y : spec_float) :
  SFsub prec emax x (SFopp y) = SFadd prec emax x y.
Proof.
  destruct x as [sx|sx| |sx mx ex], y as [sy|sy| |sy my ey]; simpl;
    try reflexivity;
    try (destruct sx, sy; reflexivity);
    try (destruct sy; reflexivity).
Qed.

Lemma SFadd_opp (prec emax : Z) (x y : spec_float) :
  SFadd prec emax x (SFopp y) = SFsub prec emax x y.
Proof.
  destruct x as [sx|sx| |sx mx ex], y as [sy|sy| |sy my ey]; simpl;
    try reflexivity;
    try (destruct sx, sy; reflexivity);
    try (destruct sy; reflexivity).
Qed.

Lemma sub_opp (x y : float) : (x - - y)%float = (x + y)%float.
Proof.
  apply Prim2SF_inj.
  rewrite FloatAxioms.sub_spec, FloatAxioms.opp_spec, FloatAxioms.add_spec.
  apply SFsub_opp.
Qed.

Lemma add_opp (x y : float) : (x + - y)%float = (x - y)%float.
Proof.
  apply Prim2SF_inj.
  rewrite FloatAxioms.add_spec, FloatAxioms.opp_spec, FloatAxioms.sub_spec.
  apply SFadd_opp.
Qed.

(** X13: neither method looks at the sign of the amount.  On an account
    that holds [B], [Withdraw(-a)] is [Deposit(a)] behind the floor
    check: it is rejected when [B + a < overdraftLimit] and otherwise
    leaves [B + a], exactly as [Deposit(a)] does; and [Deposit(-a)] is a
    withdrawal without any check: it always leaves [B - a], below the
    floor or not. *)
Theorem negative_amounts (m : Memory) (account : ptr) (B a : float) :
  accounts m !! account = Some (mkBankAccount B) ->
  BankAccount_Withdraw account (- a) m
    = (if (B + a <? overdraftLimit)%float then Ret false m
       else Ret true (with_balance account (B + a) m))
  /\ BankAccount_Deposit account a m
     = Ret tt (with_balance account (B + a) m)
  /\ BankAccount_Deposit account (- a) m
     = Ret tt (with_balance account (B - a) m).
Proof.
  intros HB. split; [|split].
  - rewrite (Withdraw_eq m account (- a) B HB). by rewrite sub_opp.
  - apply (Deposit_eq m account a B HB).
  - rewrite (Deposit_eq m account (- a) B HB). by rewrite add_opp.
Qed.

Lemma negative_amounts_witness :
  BankAccount_Withdraw 0%nat (- 300) (one_account 1000)
    = Ret true (with_balance 0%nat (1000 + 300) (one_account 1000)) /\
  BankAccount_Deposit 0%nat (- 2000) (one_account 1000)
    = Ret tt (with_balance 0%nat (1000 - 2000) (one_account 1000)).
Proof.
  pose proof (negative_amounts (one_account 1000) 0%nat 1000 300
                ltac:(reflexivity)) as (H & _ & _).
  pose proof (negative_amounts (one_account 1000) 0%nat 1000 2000
                ltac:(reflexivity)) as (_ & _ & H').
  split; [exact H | exact H'].
Defined.

(* ------------------------------------------------------------------ *)
(** ** The first version and the last *)

Lemma V1_Withdraw_eq (m : Memory) (account : ptr) (amount B : float) :
  accounts m !! account = Some (mkBankAccount B) ->
  V1.BankAccount_Withdraw account amount m =
    if (B - amount <? overdraftLimit)%float then Ret tt m
    else Ret tt (with_balance account (B - amount) m).
Proof.
  intros H. unfold V1.BankAccount_Withdraw, bind.
  rewrite (load_balance_eq m account B H).
  destruct (B - amount <? overdraftLimit)%float; [reflexivity|].
  by rewrite (load_balance_eq m account B H), (store_balance_eq m account B _ H).
Qed.

(** X14: the flag that made commands undoable changed nothing for the
    accounts.  Whenever [Call] on a leaf command of the last version
    returns, [Call] of the first version, on a command with the same
    account, action and amount, returns too and leaves the same balances
    in every account; and it panics when the last version panics. *)
Theorem Call_agrees_with_first_version (m : Memory) (c account : ptr)
    (action : Action) (amount : float) (s : bool) (n : nat) :
  objects m !! c = Some (BankAccountCommand account action amount s) ->
  match Command_Call (S n) c m with
  | Ret _ m' =>
      V1.BankAccountCommand_Call
        (V1.mkBankAccountCommand account action amount) m
      = Ret tt (mkMemory (accounts m') (objects m))
  | Panic =>
      V1.BankAccountCommand_Call
        (V1.mkBankAccountCommand account action amount) m
      = Panic
  | OutOfFuel => False
  end.
Proof.
  intros H. enter H. unfold V1.BankAccountCommand_Call. simpl.
  destruct (accounts m !! account) as [[B]|] eqn:HB.
  - destruct action as [|[]|]; cbv beta iota;
      try (destruct m; reflexivity).
    + rewrite (Deposit_eq m account amount B HB). simpl. rewrite H.
      change (V1.BankAccount_Deposit account amount m)
        with (BankAccount_Deposit account amount m).
      by rewrite (Deposit_eq m account amount B HB).
    + rewrite (Withdraw_eq m account amount B HB).
      rewrite (V1_Withdraw_eq m account amount B HB).
      destruct (B - amount <? overdraftLimit)%float; simpl; rewrite H;
        [destruct m|]; reflexivity.
  - destruct action as [|[]|]; cbv beta iota;
      try (destruct m; reflexivity).
    + rewrite (Deposit_nil m account amount HB).
      change (V1.BankAccount_Deposit account amount m)
        with (BankAccount_Deposit account amount m).
      by rewrite (Deposit_nil m account amount HB).
    + rewrite (Withdraw_nil m account amount HB).
      unfold V1.BankAccount_Withdraw, bind, load_balance. by rewrite HB.
Qed.

Lemma Call_agrees_with_first_version_witness :
  V1.BankAccountCommand_Call (V1.mkBankAccountCommand 0%nat Withdraw 200)
    (one_leaf 1000 Withdraw 200)
  = Ret tt (mkMemory (accounts (with_balance 0%nat 800 (one_leaf 1000 Withdraw 200)))
              (objects (one_leaf 1000 Withdraw 200))).
Proof.
  exact (Call_agrees_with_first_version (one_leaf 1000 Withdraw 200)
           0%nat 0%nat Withdraw 200 false 0 eq_refl).
Defined.
